(** * arxiv_weekly_radar.py: classification, quota allocation, selection,
      exporters and the seen-ledger, as a shallow embedding.

    Modelling conventions.
    - Python [str] values are modelled as [String.string] over ASCII; the
      whitespace set is the ASCII part of Python's [str.isspace] (the set
      used by [re]'s [\s], [str.strip] and, for line boundaries, a subset of
      it used by [str.splitlines]); [str.lower] lowercases A-Z.
    - Python [int] values are modelled as [Z].
    - [total * a / s] is Python's [int / int]: the exact quotient correctly
      rounded to a binary64 float, with [OverflowError] past the float range;
      [round] then rounds that float to the nearest integer, ties to even.
      For [|total * a| < 2^52] this is the exact quotient rounded the same
      way ([py_div_round_exact] below); beyond that the two can differ.
    - Timestamps are modelled as [Z] (seconds, UTC).  The source sorts on the
      ISO-8601 strings of UTC instants, which compare like the instants.
    - A Python [set] of strings is modelled as a duplicate-free list; [set()]
      of a list is [dedup], and [sorted] of a set is a sort of that list. *)

From Stdlib Require Import Strings.String Strings.Ascii ZArith List Bool Lia.
From Stdlib Require Import Sorting.Sorted Sorting.Permutation Sorting.Mergesort.
From Stdlib Require Import Structures.Orders.
Import ListNotations.
Open Scope string_scope.
Open Scope Z_scope.

(* ------------------------------------------------------------------ *)
(** ** Character and string helpers (Python [str] methods) *)

(** ASCII part of Python's [str.isspace]: \t \n \v \f \r, \x1c-\x1f, space. *)
Definition is_space (c : ascii) : bool :=
  let n := nat_of_ascii c in
  ((9 <=? n) && (n <=? 13))%nat || ((28 <=? n) && (n <=? 32))%nat.

(** [str.lower] on ASCII. *)
Definition lower_char (c : ascii) : ascii :=
  let n := nat_of_ascii c in
  if ((65 <=? n) && (n <=? 90))%nat then ascii_of_nat (n + 32) else c.

Fixpoint lower (s : string) : string :=
  match s with
  | EmptyString => EmptyString
  | String c r => String (lower_char c) (lower r)
  end.

(** [re.sub(r"\s+", " ", s)]: every maximal run of whitespace becomes one
    space.  [in_ws] records that the previous character was whitespace. *)
Fixpoint collapse_ws (in_ws : bool) (s : string) : string :=
  match s with
  | EmptyString => EmptyString
  | String c r =>
      if is_space c then
        if in_ws then collapse_ws true r else String " " (collapse_ws true r)
      else String c (collapse_ws false r)
  end.

Fixpoint lstrip (s : string) : string :=
  match s with
  | EmptyString => EmptyString
  | String c r => if is_space c then lstrip r else s
  end.

Definition rstrip (s : string) : string :=
  string_of_list_ascii
    (rev (list_ascii_of_string (lstrip (string_of_list_ascii
                                          (rev (list_ascii_of_string s)))))).

(** [str.strip()]. *)
Definition strip (s : string) : string := rstrip (lstrip s).

(** [norm(s) = re.sub(r"\s+", " ", (s or "")).strip().lower()]. *)
Definition norm (s : string) : string := lower (strip (collapse_ws false s)).

(** Python's [kw in t] on strings: [kw] occurs as a substring of [t]. *)
Fixpoint contains (kw t : string) : bool :=
  prefix kw t ||
  match t with
  | EmptyString => false
  | String _ t' => contains kw t'
  end.

(** [str.split(",")]: the pieces between commas, empty pieces kept;
    [""] splits into [[""]]. *)
Fixpoint split_comma (s : string) : list string :=
  match s with
  | EmptyString => [EmptyString]
  | String c r =>
      let parts := split_comma r in
      if Ascii.eqb c "," then EmptyString :: parts
      else match parts with
           | p :: ps => String c p :: ps
           | [] => [String c EmptyString]
           end
  end.

(** [sep.join(l)]. *)
Definition join (sep : string) (l : list string) : string := String.concat sep l.

(* ------------------------------------------------------------------ *)
(** ** [count_hits] and the classifier loop of [main] (lines 126-135) *)

(** [count_hits(text, keywords)]: both counters go up by one per keyword
    that occurs in the normalised text. *)
Definition count_hits (text : string) (keywords : list string) : Z * Z :=
  let t := norm text in
  fold_left (fun '(hits, score) kw =>
               if contains kw t then (hits + 1, score + 1) else (hits, score))
            keywords (0, 0).

(** The bucket table: a Python dict, iterated in insertion order. *)
Definition bucket_table := list (string * list string).

(** Loop state: [(best_bucket, best_hits, best_score)]. *)
Definition cls_state : Type := (option string * Z * Z)%type.

Fixpoint classify_loop (blob : string) (bs : bucket_table) (st : cls_state)
  : cls_state :=
  match bs with
  | [] => st
  | (bname, kws) :: rest =>
      let '(hits, sc) := count_hits blob kws in
      let '(_, _, best_score) := st in
      classify_loop blob rest
        (if sc >? best_score then (Some bname, hits, sc) else st)
  end.

(** [best_bucket = None; best_hits = 0; best_score = -1], then the loop. *)
Definition classify (blob : string) (buckets : bucket_table) : cls_state :=
  classify_loop blob buckets (None, 0, -1).

(* ------------------------------------------------------------------ *)
(** ** [ratio_counts] (lines 79-85) *)

(** Round the exact quotient [n / d] ([d <> 0]) to the nearest integer,
    ties to the even one.  This is Python's [round] on a float, whose
    value [m * 2^e] is an exact quotient. *)
Definition round_div (n d : Z) : Z :=
  let '(n', d') := if d <? 0 then (- n, - d) else (n, d) in
  let q := n' / d' in
  let r := n' mod d' in
  if 2 * r <? d' then q
  else if d' <? 2 * r then q + 1
  else if Z.even q then q else q + 1.

(** [2^p <= n / d] for [n, d > 0] and any integer [p]. *)
Definition pow2_le (d p n : Z) : bool :=
  d * 2 ^ (Z.max p 0) <=? n * 2 ^ (Z.max (- p) 0).

(** The binade of [n / d] ([n, d > 0]): the [p] with
    [2^p <= n / d < 2^(p+1)]. *)
Definition fl_exp (n d : Z) : Z :=
  let k := Z.log2 n - Z.log2 d in
  if pow2_le d k n then k else k - 1.

(** Python's [int / int] for [n, d > 0]: the quotient correctly rounded to
    a binary64 float (53-bit significand, ties to even, subnormals below
    [2^-1022]), as [(m, e)] with value [m * 2^e]. *)
Definition fl_div_pos (n d : Z) : Z * Z :=
  let e := Z.max (fl_exp n d - 52) (-1074) in
  (round_div (n * 2 ^ (Z.max (- e) 0)) (d * 2 ^ (Z.max e 0)), e).

(** [round(n / d)] on Python ints: [None] is the [ZeroDivisionError]
    ([d = 0]) or the [OverflowError] of a quotient that rounds to [2^1024]
    or more.  Division and [round] are both symmetric in the sign. *)
Definition py_div_round (n d : Z) : option Z :=
  if d =? 0 then None
  else if n =? 0 then Some 0
  else
    let '(m, e) := fl_div_pos (Z.abs n) (Z.abs d) in
    if 2 ^ 1024 * 2 ^ (Z.max (- e) 0) <=? m * 2 ^ (Z.max e 0) then None
    else Some (Z.sgn n * Z.sgn d * round_div (m * 2 ^ (Z.max e 0)) (2 ^ (Z.max (- e) 0))).

(** [ratio_counts(total, ratio)]; [None] is the exception raised: the
    [ZeroDivisionError] when [a + b + c = 0], or an [OverflowError] of
    [total * a / s] or [total * b / s]. *)
Definition ratio_counts (total : Z) (ratio : Z * Z * Z) : option (Z * Z * Z) :=
  let '(a, b, c) := ratio in
  let s := a + b + c in
  if s =? 0 then None
  else
    match py_div_round (total * a) s with
    | None => None
    | Some x =>
        match py_div_round (total * b) s with
        | None => None
        | Some y => Some (x, y, total - x - y)
        end
    end.

(** The spec's reading of the rounding step ("ties away from zero"), kept
    apart from the source to compare the two. *)
Definition round_div_half_away (n d : Z) : Z :=
  let '(n', d') := if d <? 0 then (- n, - d) else (n, d) in
  if n' <? 0 then - ((2 * (- n') + d') / (2 * d'))
  else (2 * n' + d') / (2 * d').

Definition ratio_counts_half_away (total : Z) (ratio : Z * Z * Z)
  : option (Z * Z * Z) :=
  let '(a, b, c) := ratio in
  let s := a + b + c in
  if s =? 0 then None
  else
    let x := round_div_half_away (total * a) s in
    let y := round_div_half_away (total * b) s in
    Some (x, y, total - x - y).

(** [x] is [n / d] rounded to nearest, ties to even ([d > 0]). *)
Definition is_round_half_even (n d x : Z) : Prop :=
  - d <= 2 * (d * x - n) <= d /\
  (Z.abs (2 * (d * x - n)) = d -> Z.even x = true).

(* ------------------------------------------------------------------ *)
(** ** Configuration (the module-level constants, lines 26-52) *)

Record config := {
  DAYS_BACK : Z;
  TOTAL_PICKS : Z;
  RATIO : Z * Z * Z;
  MIN_HITS_ANY_BUCKET : Z;
  BUCKETS : bucket_table
}.

Definition default_buckets : bucket_table :=
  [ ("P1_world_model_vla_3d",
      ["world model"; "embodied"; "vla"; "vision-language-action";
       "visuomotor"; "policy learning"; "sim2real";
       "3d reconstruction"; "multi-view"; "structure from motion";
       "slam"; "nerf"; "gaussian splatting"; "robot"; "robotics"]);
    ("P2_generative_ai",
      ["diffusion"; "generative model"; "foundation model";
       "video generation"; "multimodal"; "transformer"]);
    ("P3_2d_cv",
      ["object detection"; "segmentation";
       "multi-object tracking"; "mot";
       "reid"; "association"; "id switch"]) ].

Definition default_config : config := {|
  DAYS_BACK := 7;
  TOTAL_PICKS := 10;
  RATIO := (6, 3, 1);
  MIN_HITS_ANY_BUCKET := 2;
  BUCKETS := default_buckets
|}.

(* ------------------------------------------------------------------ *)
(** ** Fetched results and pool rows *)

(** The fields of an [arxiv.Result] that [main] reads. *)
Record result := {
  res_published : Z;
  res_short_id : string;
  res_title : string;
  res_summary : string;
  res_authors : list string;  (** the [a.name] of each author *)
  res_entry_id : string
}.

(** A row of the pool (the dict appended at lines 140-149). *)
Record row := {
  pid : string;
  title : string;
  authors : string;
  published : Z;
  url : string;
  bucket : option string;
  score : Z;
  abstract : string
}.

Definition nl : string := String (ascii_of_nat 10) EmptyString.

(** [s.split("v")[0]]. *)
Fixpoint before_v (s : string) : string :=
  match s with
  | EmptyString => EmptyString
  | String c r => if Ascii.eqb c "v" then EmptyString else String c (before_v r)
  end.

(** [s.replace("\n", " ")]. *)
Fixpoint replace_nl (s : string) : string :=
  match s with
  | EmptyString => EmptyString
  | String c r =>
      String (if Ascii.eqb c (ascii_of_nat 10) then " "%char else c) (replace_nl r)
  end.

(** [pid = res.get_short_id().split("v")[0]] (line 118). *)
Definition res_pid (res : result) : string := before_v (res_short_id res).

(** [title] and [abstract] (lines 122-123). *)
Definition res_clean_title (res : result) : string := strip (replace_nl (res_title res)).
Definition res_abstract (res : result) : string := strip (res_summary res).

(** [blob = f"{title}\n{abstract}"] (line 124). *)
Definition res_blob (res : result) : string :=
  res_clean_title res ++ nl ++ res_abstract res.

(** The row appended at lines 140-149. *)
Definition mk_row (res : result) (best_bucket : option string) (best_score : Z) : row :=
  {| pid := res_pid res; title := res_clean_title res;
     authors := join ", " (res_authors res);
     published := res_published res; url := res_entry_id res;
     bucket := best_bucket; score := best_score;
     abstract := res_abstract res |}.

(** The body of the [for res in search.results()] loop (lines 114-152) on
    the state [(rows, seen)]; rows are kept in append order. *)
Definition process_result (cfg : config) (since : Z)
           (st : list row * list string) (res : result) : list row * list string :=
  let '(rows, seen) := st in
  if res_published res <? since then st
  else if existsb (String.eqb (res_pid res)) seen then st
  else
    let '(best_bucket, best_hits, best_score) := classify (res_blob res) (BUCKETS cfg) in
    if best_hits <? MIN_HITS_ANY_BUCKET cfg then st
    else (app rows [mk_row res best_bucket best_score], res_pid res :: seen).

Definition collect (cfg : config) (since : Z) (seen : list string)
           (results : list result) : list row * list string :=
  fold_left (process_result cfg since) results ([], seen).

(* ------------------------------------------------------------------ *)
(** ** Seen-ledger: [load_seen] / [save_seen] (lines 61-67) *)

(** Python's [sorted] on strings: code-point order, here [String.leb]. *)
Module StringOrder <: TotalLeBool.
Definition t := string.
Definition leb : t -> t -> bool := String.leb.
Infix "<=?" := leb (at level 70, no associativity).
Lemma leb_total : forall a b, (a <=? b) = true \/ (b <=? a) = true.
Proof. exact String.leb_total. Qed.
End StringOrder.

Module StringSort := Sort StringOrder.

(** Line boundaries of [str.splitlines] in ASCII:
    \n \v \f \r \x1c \x1d \x1e. *)
Definition is_line_boundary (c : ascii) : bool :=
  let n := nat_of_ascii c in
  ((10 <=? n) && (n <=? 13))%nat || ((28 <=? n) && (n <=? 30))%nat.

(** The pieces between line boundaries, the last piece kept even when
    empty; [after_cr] is set after a [\r], so that a following [\n]
    belongs to the same boundary. *)
Fixpoint split_lines_from (after_cr : bool) (s : string) : list string :=
  match s with
  | EmptyString => [EmptyString]
  | String c r =>
      if after_cr && Ascii.eqb c (ascii_of_nat 10) then split_lines_from false r
      else if is_line_boundary c then
        EmptyString :: split_lines_from (Ascii.eqb c (ascii_of_nat 13)) r
      else
        match split_lines_from false r with
        | p :: ps => String c p :: ps
        | [] => [String c EmptyString]
        end
  end.

Definition split_lines (s : string) : list string := split_lines_from false s.

(** A final empty piece (text ending in a boundary, or empty text) is
    not a line. *)
Fixpoint drop_last_empty (l : list string) : list string :=
  match l with
  | [] => []
  | [x] => if String.eqb x EmptyString then [] else [x]
  | x :: r => x :: drop_last_empty r
  end.

(** [str.splitlines()]. *)
Definition splitlines (s : string) : list string := drop_last_empty (split_lines s).

(** [set(l)]: one copy of each element. *)
Fixpoint dedup (l : list string) : list string :=
  match l with
  | [] => []
  | x :: r => if existsb (String.eqb x) r then dedup r else x :: dedup r
  end.

(** The ledger file: [None] when [SEEN_PATH] does not exist.  [read_text]'s
    newline translation maps [\r\n] and [\r] to [\n], which [splitlines]
    treats alike, so it is not modelled separately. *)
Definition load_seen (file : option string) : list string :=
  match file with
  | None => []
  | Some txt => dedup (splitlines txt)
  end.

(** [SEEN_PATH.write_text("\n".join(sorted(seen)))]: the new file content. *)
Definition save_seen (seen : list string) : string :=
  join nl (StringSort.sort seen).

(* ------------------------------------------------------------------ *)
(** ** Selection (lines 160-168) *)

(** [DataFrame.head(n)]: the first [n] rows; a negative [n] drops the last
    [-n] rows. *)
Definition head {A} (n : Z) (l : list A) : list A :=
  if 0 <=? n then firstn (Z.to_nat n) l
  else firstn (length l - Z.to_nat (- n)) l.

(** [sort_values(["score", "published"], ascending=[False, False])]:
    [r1] may stay before [r2]. *)
Definition row_before (r1 r2 : row) : bool :=
  (score r2 <? score r1) ||
  ((score r1 =? score r2) && (published r2 <=? published r1)).

(** A multi-column [sort_values] is stable: insertion sort that puts the
    earlier row first among equal keys. *)
Fixpoint insert_row (r : row) (l : list row) : list row :=
  match l with
  | [] => [r]
  | r' :: l' => if row_before r r' then r :: l else r' :: insert_row r l'
  end.

Fixpoint sort_rows (l : list row) : list row :=
  match l with
  | [] => []
  | r :: l' => insert_row r (sort_rows l')
  end.

(** [df["bucket"].str.startswith(p)]. *)
Definition bucket_starts (p : string) (r : row) : bool :=
  match bucket r with
  | Some b => prefix p b
  | None => false
  end.

(** [pd.concat([p1, p2, p3]).head(TOTAL_PICKS)] for given quotas. *)
Definition select_with (total q1 q2 q3 : Z) (rows : list row) : list row :=
  let df := sort_rows rows in
  let p1 := head q1 (filter (bucket_starts "P1") df) in
  let p2 := head q2 (filter (bucket_starts "P2") df) in
  let p3 := head q3 (filter (bucket_starts "P3") df) in
  head total (app p1 (app p2 p3)).

(** Lines 160-168; [None] is an exception raised by [ratio_counts]. *)
Definition select (cfg : config) (rows : list row) : option (list row) :=
  match ratio_counts (TOTAL_PICKS cfg) (RATIO cfg) with
  | None => None
  | Some (q1, q2, q3) => Some (select_with (TOTAL_PICKS cfg) q1 q2 q3 rows)
  end.

(* ------------------------------------------------------------------ *)
(** ** Exporters (lines 170-191) *)

(** One Markdown entry (lines 173-176). *)
Definition md_entry (r : row) : string :=
  "- **[" ++ pid r ++ "](" ++ url r ++ ")**  " ++ nl ++
  "  " ++ title r ++ "  " ++ nl ++
  "  *" ++ authors r ++ "*  " ++ nl ++
  "  _" ++ substring 0 300 (abstract r) ++ "..._" ++ nl.

Definition digest (today : string) (picks : list row) : string :=
  join nl (("# Weekly Radar " ++ today ++ nl) :: map md_entry picks).

(** The RIS lines of one row (lines 183-189). *)
Definition ris_record (r : row) : list string :=
  app ["TY  - JOUR"; "TI  - " ++ title r]
      (app (map (fun au => "AU  - " ++ strip au) (split_comma (authors r)))
           ["UR  - " ++ url r; "ER  - "; ""]).

Definition ris (picks : list row) : string := join nl (flat_map ris_record picks).

(* ------------------------------------------------------------------ *)
(** ** One run of [main] *)

Record run_out := {
  out_ledger : string;               (** content written to [SEEN_PATH] *)
  out_rows : list row;               (** the pool *)
  out_picks : option (list row)      (** [None]: [ratio_counts] raised *)
}.

(** [now] is [datetime.now(timezone.utc)] in seconds; the ledger is saved
    before the [if not rows] early return, so in every run.  With no rows
    nothing is selected or written. *)
Definition run (cfg : config) (now : Z) (ledger : option string)
           (results : list result) : run_out :=
  let since := now - DAYS_BACK cfg * 86400 in
  let seen := load_seen ledger in
  let '(rows, seen') := collect cfg since seen results in
  {| out_ledger := save_seen seen';
     out_rows := rows;
     out_picks := match rows with [] => Some [] | _ => select cfg rows end |}.

(** Consecutive runs, each reading the ledger the previous one wrote; the
    list of the shortlists, in run order. *)
Fixpoint runs (cfg : config) (ledger : option string)
         (batches : list (Z * list result)) : list (option (list row)) :=
  match batches with
  | [] => []
  | (now, results) :: rest =>
      let o := run cfg now ledger results in
      out_picks o :: runs cfg (Some (out_ledger o)) rest
  end.

(** The rows of the globally sorted pool whose bucket starts with [p]. *)
Definition bucket_rows (p : string) (rows : list row) : list row :=
  filter (bucket_starts p) (sort_rows rows).

(** A name without [","]. *)
Definition comma_free (s : string) : bool :=
  forallb (fun c => negb (Ascii.eqb c ",")) (list_ascii_of_string s).

(** A string with no line boundary. *)
Definition line_free (s : string) : bool :=
  forallb (fun c => negb (is_line_boundary c)) (list_ascii_of_string s).

(** A sample fetched result used by the witnesses. *)
Definition sample_result : result := {|
  res_published := 100; res_short_id := "2410.00001v2";
  res_title := "Robot SLAM"; res_summary := "A study.";
  res_authors := ["Ann Lee"]; res_entry_id := "http://arxiv.org/abs/2410.00001v2" |}.

(** Two sample pool rows of one bucket. *)
Definition sample_row_hi : row := {|
  pid := "2410.00001"; title := "Robot SLAM"; authors := "Ann Lee";
  published := 100; url := "u1"; bucket := Some "P1_SLAM"; score := 3;
  abstract := "A study." |}.

Definition sample_row_lo : row := {|
  pid := "2410.00002"; title := "Lidar SLAM"; authors := "Bo Li";
  published := 200; url := "u2"; bucket := Some "P1_SLAM"; score := 2;
  abstract := "A survey." |}.

(** Whitespace in canonical form: every whitespace character is a space
    and no two are adjacent; [prev_ws] says the previous one was. *)
Fixpoint ws_ok (prev_ws : bool) (s : string) : bool :=
  match s with
  | EmptyString => true
  | String c r =>
      if is_space c then negb prev_ws && Ascii.eqb c " " && ws_ok true r
      else ws_ok false r
  end.

(** No leading whitespace. *)
Definition starts_nonspace (s : string) : bool :=
  match s with
  | EmptyString => true
  | String c _ => negb (is_space c)
  end.

(** No trailing whitespace. *)
Definition ends_nonspace (s : string) : bool :=
  match rev (list_ascii_of_string s) with
  | [] => true
  | c :: _ => negb (is_space c)
  end.

(** ASCII upper-case letters A-Z. *)
Definition is_upper (c : ascii) : bool :=
  let n := nat_of_ascii c in ((65 <=? n) && (n <=? 90))%nat.

Fixpoint has_upper (s : string) : bool :=
  match s with
  | EmptyString => false
  | String c r => is_upper c || has_upper r
  end.

(* ================================================================== *)
(** * Proofs *)

(** ** The allocator *)

Lemma round_div_spec (n d : Z) : 0 < d -> is_round_half_even n d (round_div n d).
Proof.
  intros Hd. unfold round_div.
  replace (d <? 0) with false by (symmetry; apply Z.ltb_ge; lia).
  pose proof (Z.div_mod n d ltac:(lia)) as Hdm.
  pose proof (Z.mod_pos_bound n d Hd) as Hr.
  set (q := n / d) in *. set (r := n mod d) in *.
  unfold is_round_half_even.
  destruct (2 * r <? d) eqn:E1; [apply Z.ltb_lt in E1 | apply Z.ltb_ge in E1].
  - split; [nia | intros Habs; exfalso; rewrite Z.abs_neq in Habs; nia].
  - destruct (d <? 2 * r) eqn:E2; [apply Z.ltb_lt in E2 | apply Z.ltb_ge in E2].
    + split; [nia | intros Habs; exfalso; rewrite Z.abs_eq in Habs; nia].
    + destruct (Z.even q) eqn:Ev.
      * split; [nia | intros _; exact Ev].
      * split; [nia | intros _].
        rewrite Z.even_add, Ev. reflexivity.
Qed.

Lemma round_div_nonneg (n d : Z) : 0 < d -> 0 <= n -> 0 <= round_div n d.
Proof.
  intros Hd Hn. destruct (round_div_spec n d Hd) as [[H1 H2] _]. nia.
Qed.

(** Half-even rounding has at most one result. *)
Lemma round_half_even_unique (n d x y : Z) :
  0 < d -> is_round_half_even n d x -> is_round_half_even n d y -> x = y.
Proof.
  intros Hd [[Hx1 Hx2] Hxe] [[Hy1 Hy2] Hye].
  assert (Hxy : x - y <= 1 /\ y - x <= 1) by (split; nia).
  destruct (Z.eq_dec x y) as [E | Ne]; [exact E |].
  exfalso.
  assert (Hcase : y = x + 1 \/ x = y + 1) by lia.
  destruct Hcase as [-> | ->].
  - assert (E1 : 2 * (d * x - n) = - d) by nia.
    assert (E2 : 2 * (d * (x + 1) - n) = d) by nia.
    specialize (Hxe ltac:(rewrite E1, Z.abs_opp, Z.abs_eq; lia)).
    specialize (Hye ltac:(rewrite E2, Z.abs_eq; lia)).
    rewrite Z.even_add, Hxe in Hye. discriminate.
  - assert (E1 : 2 * (d * y - n) = - d) by nia.
    assert (E2 : 2 * (d * (y + 1) - n) = d) by nia.
    specialize (Hye ltac:(rewrite E1, Z.abs_opp, Z.abs_eq; lia)).
    specialize (Hxe ltac:(rewrite E2, Z.abs_eq; lia)).
    rewrite Z.even_add, Hye in Hxe. discriminate.
Qed.

Lemma round_half_even_scale (k n d x : Z) :
  0 < k -> 0 < d -> is_round_half_even n d x -> is_round_half_even (k * n) (k * d) x.
Proof.
  intros Hk Hd [[H1 H2] He]. unfold is_round_half_even.
  replace (2 * (k * d * x - k * n)) with (k * (2 * (d * x - n))) by ring.
  split; [split; nia |].
  intros Habs. apply He. rewrite Z.abs_mul, Z.abs_eq in Habs by lia.
  apply Z.mul_reg_l with k; lia.
Qed.

Lemma round_div_one (n : Z) : round_div n 1 = n.
Proof.
  apply (round_half_even_unique n 1); [lia | apply round_div_spec; lia |].
  unfold is_round_half_even. rewrite Z.mul_1_l, Z.sub_diag. split; [lia | discriminate].
Qed.

Lemma round_div_zero (d : Z) : 0 < d -> round_div 0 d = 0.
Proof.
  intros Hd. apply (round_half_even_unique 0 d); [lia | apply round_div_spec; lia |].
  unfold is_round_half_even. split; [lia | reflexivity].
Qed.

Lemma round_div_opp (n d : Z) : 0 < d -> round_div (- n) d = - round_div n d.
Proof.
  intros Hd. destruct (round_div_spec n d Hd) as [[H1 H2] He].
  apply (round_half_even_unique (- n) d); [lia | apply round_div_spec; lia |].
  unfold is_round_half_even. split; [lia |].
  intros Habs. rewrite Z.even_opp. apply He.
  replace (2 * (d * round_div n d - n)) with (- (2 * (d * - round_div n d - - n))) by ring.
  rewrite Z.abs_opp. exact Habs.
Qed.

(** Rounding twice: rounding [n * X / d] to an integer [m], then [m / X],
    gives [n / d] rounded, when [X] is even and larger than [d]. *)
Lemma round_div_twice (n d X m : Z) :
  0 < d -> d < X -> Z.even X = true -> is_round_half_even (n * X) d m ->
  round_div m X = round_div n d.
Proof.
  intros Hd HX Hev [[M1 M2] _].
  destruct (round_div_spec n d Hd) as [[R1 R2] Rt].
  set (r := round_div n d) in *.
  apply (round_half_even_unique m X); [lia | apply round_div_spec; lia |].
  apply Z.even_spec in Hev as [Y HY].
  assert (Key : d * (2 * (X * r - m)) = X * (2 * (d * r - n)) - 2 * (d * m - n * X)) by ring.
  assert (U : 2 * (X * r - m) <= X + 1) by nia.
  assert (L : - X - 1 <= 2 * (X * r - m)) by nia.
  unfold is_round_half_even. split; [lia |].
  intros Habs. apply Rt.
  destruct (Z.abs_spec (2 * (X * r - m))) as [[_ E] | [_ E]]; rewrite E in Habs.
  - set (t := 2 * (d * r - n) - d).
    assert (Ht : X * t = 2 * (d * m - n * X)) by (unfold t; nia).
    assert (t = 0) by nia. rewrite Z.abs_eq; lia.
  - set (t := 2 * (d * r - n) + d).
    assert (Ht : X * t = 2 * (d * m - n * X)) by (unfold t; nia).
    assert (t = 0) by nia. rewrite Z.abs_neq; lia.
Qed.

Lemma max_split (p : Z) : Z.max p 0 = p + Z.max (- p) 0.
Proof. lia. Qed.

(** [pow2_le d p n] read with any common scaling [2^c]. *)
Lemma pow2_le_at (d p n : Z) :
  pow2_le d p n = true -> forall c, 0 <= c -> 0 <= p + c -> d * 2 ^ (p + c) <= n * 2 ^ c.
Proof.
  unfold pow2_le. intros H c Hc Hpc. apply Z.leb_le in H.
  set (c0 := Z.max (- p) 0) in *.
  replace (p + c) with (Z.max p 0 + (c - c0)) by lia.
  replace c with (c0 + (c - c0)) at 2 by lia.
  rewrite !Z.pow_add_r by lia.
  pose proof (Z.pow_pos_nonneg 2 (c - c0) ltac:(lia) ltac:(lia)). nia.
Qed.

Lemma pow2_le_of (d p n c : Z) :
  0 <= c -> 0 <= p + c -> d * 2 ^ (p + c) <= n * 2 ^ c -> pow2_le d p n = true.
Proof.
  intros Hc Hpc H. unfold pow2_le. apply Z.leb_le.
  set (c0 := Z.max (- p) 0).
  replace (p + c) with (Z.max p 0 + (c - c0)) in H by lia.
  replace c with (c0 + (c - c0)) in H at 2 by lia.
  rewrite !Z.pow_add_r in H by lia.
  pose proof (Z.pow_pos_nonneg 2 (c - c0) ltac:(lia) ltac:(lia)).
  apply (Z.mul_le_mono_pos_r _ _ (2 ^ (c - c0))); [lia | nia].
Qed.

Lemma pow2_le_mono (d p p' n : Z) :
  0 < d -> p' <= p -> pow2_le d p n = true -> pow2_le d p' n = true.
Proof.
  intros Hd Hp H. set (c := Z.max (- p') 0).
  apply (pow2_le_of _ _ _ c); [lia | lia |].
  pose proof (pow2_le_at d p n H c ltac:(lia) ltac:(lia)).
  pose proof (Z.pow_le_mono_r 2 (p' + c) (p + c) ltac:(lia) ltac:(lia)). nia.
Qed.

Lemma pow2_le_scale (k d p n : Z) : 0 < k -> pow2_le (k * d) p (k * n) = pow2_le d p n.
Proof.
  intros Hk. unfold pow2_le.
  destruct (d * 2 ^ Z.max p 0 <=? n * 2 ^ Z.max (- p) 0) eqn:E.
  - apply Z.leb_le in E. apply Z.leb_le. nia.
  - apply Z.leb_gt in E. apply Z.leb_gt. nia.
Qed.

Lemma fl_exp_low (n d : Z) : 0 < n -> 0 < d -> pow2_le d (fl_exp n d) n = true.
Proof.
  intros Hn Hd. unfold fl_exp.
  set (k := Z.log2 n - Z.log2 d).
  destruct (pow2_le d k n) eqn:E; [exact E |].
  destruct (Z.log2_spec n Hn) as [Ha _]. destruct (Z.log2_spec d Hd) as [_ Hb].
  pose proof (Z.log2_nonneg n). pose proof (Z.log2_nonneg d).
  rewrite <- Z.add_1_r in Hb.
  destruct (Z_le_gt_dec 1 k) as [Hk | Hk].
  - apply (pow2_le_of _ _ _ 0); [lia | lia |]. rewrite Z.add_0_r, Z.pow_0_r, Z.mul_1_r.
    assert (E2 : 2 ^ (Z.log2 d + 1) * 2 ^ (k - 1) = 2 ^ Z.log2 n).
    { rewrite <- Z.pow_add_r by lia. f_equal. unfold k. lia. }
    pose proof (Z.pow_pos_nonneg 2 (k - 1) ltac:(lia) ltac:(lia)). nia.
  - apply (pow2_le_of _ _ _ (1 - k)); [lia | lia |]. replace (k - 1 + (1 - k)) with 0 by lia.
    rewrite Z.pow_0_r, Z.mul_1_r.
    assert (E2 : 2 ^ Z.log2 n * 2 ^ (1 - k) = 2 ^ (Z.log2 d + 1)).
    { rewrite <- Z.pow_add_r by lia. f_equal. unfold k. lia. }
    pose proof (Z.pow_pos_nonneg 2 (1 - k) ltac:(lia) ltac:(lia)). nia.
Qed.

Lemma fl_exp_high (n d : Z) : 0 < n -> 0 < d -> pow2_le d (fl_exp n d + 1) n = false.
Proof.
  intros Hn Hd. unfold fl_exp.
  set (k := Z.log2 n - Z.log2 d).
  destruct (pow2_le d k n) eqn:E; [| rewrite Z.sub_add; exact E].
  destruct (Z.log2_spec n Hn) as [_ Ha]. destruct (Z.log2_spec d Hd) as [Hb _].
  pose proof (Z.log2_nonneg n). pose proof (Z.log2_nonneg d).
  rewrite <- Z.add_1_r in Ha.
  destruct (pow2_le d (k + 1) n) eqn:E1; [exfalso | reflexivity].
  destruct (Z_le_gt_dec 0 (k + 1)) as [Hk | Hk].
  - pose proof (pow2_le_at d (k + 1) n E1 0 ltac:(lia) ltac:(lia)) as Hle.
    rewrite Z.add_0_r, Z.pow_0_r, Z.mul_1_r in Hle.
    assert (E2 : 2 ^ Z.log2 d * 2 ^ (k + 1) = 2 ^ (Z.log2 n + 1)).
    { rewrite <- Z.pow_add_r by lia. f_equal. unfold k. lia. }
    pose proof (Z.pow_pos_nonneg 2 (k + 1) ltac:(lia) ltac:(lia)). nia.
  - pose proof (pow2_le_at d (k + 1) n E1 (- k - 1) ltac:(lia) ltac:(lia)) as Hle.
    replace (k + 1 + (- k - 1)) with 0 in Hle by lia. rewrite Z.pow_0_r, Z.mul_1_r in Hle.
    assert (E2 : 2 ^ (Z.log2 n + 1) * 2 ^ (- k - 1) = 2 ^ Z.log2 d).
    { rewrite <- Z.pow_add_r by lia. f_equal. unfold k. lia. }
    pose proof (Z.pow_pos_nonneg 2 (- k - 1) ltac:(lia) ltac:(lia)). nia.
Qed.

Lemma fl_exp_unique (n d p : Z) :
  0 < n -> 0 < d -> pow2_le d p n = true -> pow2_le d (p + 1) n = false -> fl_exp n d = p.
Proof.
  intros Hn Hd Hl Hh.
  pose proof (fl_exp_low n d Hn Hd) as Hl'. pose proof (fl_exp_high n d Hn Hd) as Hh'.
  destruct (Z.lt_total (fl_exp n d) p) as [Lt | [Eq | Gt]]; [exfalso | exact Eq | exfalso].
  - rewrite (pow2_le_mono d p (fl_exp n d + 1) n Hd ltac:(lia) Hl) in Hh'. discriminate.
  - rewrite (pow2_le_mono d (fl_exp n d) (p + 1) n Hd ltac:(lia) Hl') in Hh. discriminate.
Qed.

Lemma even_pow2 (E : Z) : 1 <= E -> Z.even (2 ^ E) = true.
Proof.
  intros HE. replace E with (Z.succ (E - 1)) by lia. rewrite Z.pow_succ_r by lia.
  apply Z.even_spec. eexists; reflexivity.
Qed.

(** Below [2^52] the float quotient rounds to the same integer as the
    exact quotient, and does not overflow. *)
Lemma fl_div_pos_exact (n d : Z) :
  0 < n < 2 ^ 52 -> 0 < d ->
  exists E, 1 <= E /\ snd (fl_div_pos n d) = - E /\
    fst (fl_div_pos n d) < 2 ^ 1024 * 2 ^ E /\
    round_div (fst (fl_div_pos n d)) (2 ^ E) = round_div n d.
Proof.
  intros Hn Hd. unfold fl_div_pos. simpl fst. simpl snd.
  pose proof (fl_exp_low n d ltac:(lia) Hd) as Hl.
  set (p := fl_exp n d) in *.
  assert (Hp : p < 52).
  { destruct (Z_lt_le_dec p 52) as [H | H]; [exact H | exfalso].
    pose proof (pow2_le_at d p n Hl 0 ltac:(lia) ltac:(lia)) as Hle.
    rewrite Z.add_0_r, Z.pow_0_r, Z.mul_1_r in Hle.
    pose proof (Z.pow_le_mono_r 2 52 p ltac:(lia) H). nia. }
  set (E := - Z.max (p - 52) (-1074)).
  assert (HE : 1 <= E) by (unfold E; lia).
  exists E. replace (Z.max (p - 52) (-1074)) with (- E) by (unfold E; lia).
  repeat rewrite Z.opp_involutive. rewrite (Z.max_l E 0), (Z.max_r (- E) 0) by lia.
  rewrite Z.pow_0_r, Z.mul_1_r.
  set (X := 2 ^ E).
  assert (HX : 0 < X) by (apply Z.pow_pos_nonneg; lia).
  destruct (round_div_spec (n * X) d Hd) as [[M1 M2] Mt].
  set (m := round_div (n * X) d) in *.
  assert (HB : 2 ^ 52 <= 2 ^ 1024) by (apply Z.pow_le_mono_r; lia).
  split; [exact HE | split; [reflexivity | split]].
  - set (B := 2 ^ 1024) in *.
    destruct (Z_lt_le_dec m (B * X)) as [Hlt | Hge]; [exact Hlt | exfalso].
    assert (H1 : d * (B * X) <= d * m) by nia.
    assert (H2 : d <= B * d - n) by nia.
    assert (H3 : X * d <= X * (B * d - n)) by nia.
    nia.
  - destruct (Z_lt_le_dec d X) as [HdX | HdX].
    + apply round_div_twice; [exact Hd | exact HdX | apply even_pow2; exact HE |].
      split; [split; assumption | exact Mt].
    + (* a quotient below 2^-1022: both round to 0 *)
      assert (HE2 : E = 1074).
      { unfold E. destruct (Z_le_gt_dec (p - 52) (-1074)) as [H | H]; [lia | exfalso].
        pose proof (pow2_le_at d p n Hl (52 - p) ltac:(lia) ltac:(lia)) as Hle.
        replace (p + (52 - p)) with 52 in Hle by lia.
        unfold X in HdX. replace E with (52 - p) in HdX by (unfold E; lia).
        assert (HY : 0 < 2 ^ (52 - p)) by (apply Z.pow_pos_nonneg; lia).
        assert (2 ^ (52 - p) * n < 2 ^ (52 - p) * 2 ^ 52) by nia.
        assert (2 ^ (52 - p) * 2 ^ 52 <= d * 2 ^ 52) by nia.
        lia. }
      assert (Hr : round_div n d = 0).
      { apply (round_half_even_unique n d); [lia | apply round_div_spec; lia |].
        assert (2 ^ 53 <= 2 ^ 1074) by (apply Z.pow_le_mono_r; lia).
        assert (2 ^ 53 = 2 * 2 ^ 52) by reflexivity.
        unfold X in HdX. rewrite HE2 in HdX.
        split; [lia | reflexivity]. }
      rewrite Hr.
      apply (round_half_even_unique m X); [lia | apply round_div_spec; lia |].
      assert (Hm : 0 <= m <= n) by nia.
      assert (2 ^ 53 <= 2 ^ 1074) by (apply Z.pow_le_mono_r; lia).
      assert (2 ^ 53 = 2 * 2 ^ 52) by reflexivity.
      unfold X. rewrite HE2. split; [lia | reflexivity].
Qed.

Lemma py_div_round_exact (n d : Z) :
  0 < d -> Z.abs n < 2 ^ 52 -> py_div_round n d = Some (round_div n d).
Proof.
  intros Hd Hn. unfold py_div_round.
  replace (d =? 0) with false by (symmetry; apply Z.eqb_neq; lia).
  destruct (Z.eq_dec n 0) as [-> | Hn0]; [rewrite round_div_zero by lia; reflexivity |].
  replace (n =? 0) with false by (symmetry; apply Z.eqb_neq; lia).
  rewrite (Z.abs_eq d) by lia.
  destruct (fl_div_pos_exact (Z.abs n) d ltac:(lia) Hd) as (E & HE & He & Hm & Hr).
  destruct (fl_div_pos (Z.abs n) d) as [m e]. cbn [fst snd] in He, Hm, Hr. subst e.
  repeat rewrite Z.opp_involutive. rewrite (Z.max_l E 0), (Z.max_r (- E) 0) by lia.
  rewrite Z.pow_0_r, Z.mul_1_r.
  replace (2 ^ 1024 * 2 ^ E <=? m) with false by (symmetry; apply Z.leb_gt; lia).
  rewrite Hr, (Z.sgn_pos d) by lia.
  destruct (Z_lt_le_dec 0 n) as [Hpos | Hneg].
  - rewrite Z.abs_eq, Z.sgn_pos by lia. f_equal. lia.
  - rewrite Z.abs_neq, Z.sgn_neg by lia. rewrite round_div_opp by lia. f_equal. lia.
Qed.

Lemma py_div_round_nonneg (n d x : Z) :
  0 <= n -> 0 < d -> py_div_round n d = Some x -> 0 <= x.
Proof.
  intros Hn Hd. unfold py_div_round.
  replace (d =? 0) with false by (symmetry; apply Z.eqb_neq; lia).
  destruct (n =? 0); [intros E; injection E as <-; lia |].
  unfold fl_div_pos.
  set (e := Z.max (fl_exp (Z.abs n) (Z.abs d) - 52) (-1074)).
  assert (H2a : 0 < 2 ^ Z.max (- e) 0) by (apply Z.pow_pos_nonneg; lia).
  assert (H2b : 0 < 2 ^ Z.max e 0) by (apply Z.pow_pos_nonneg; lia).
  set (m := round_div (Z.abs n * 2 ^ Z.max (- e) 0) (Z.abs d * 2 ^ Z.max e 0)).
  assert (Hm : 0 <= m) by (apply round_div_nonneg; nia).
  destruct (_ <=? _); [discriminate |]. intros E. injection E as <-.
  rewrite (Z.sgn_pos d) by lia.
  destruct (Z.eq_dec n 0) as [-> | Hn0]; [reflexivity |].
  rewrite Z.sgn_pos by lia.
  pose proof (round_div_nonneg (m * 2 ^ Z.max e 0) (2 ^ Z.max (- e) 0) H2a ltac:(nia)). lia.
Qed.

Lemma fl_div_pos_scale (k n d : Z) :
  0 < k -> 0 < n -> 0 < d -> fl_div_pos (k * n) (k * d) = fl_div_pos n d.
Proof.
  intros Hk Hn Hd. unfold fl_div_pos.
  assert (Ep : fl_exp (k * n) (k * d) = fl_exp n d).
  { apply fl_exp_unique; [nia | nia | |]; rewrite pow2_le_scale by lia;
      [apply fl_exp_low | apply fl_exp_high]; lia. }
  rewrite Ep. set (e := Z.max (fl_exp n d - 52) (-1074)). f_equal.
  assert (H2a : 0 < 2 ^ Z.max (- e) 0) by (apply Z.pow_pos_nonneg; lia).
  assert (H2b : 0 < 2 ^ Z.max e 0) by (apply Z.pow_pos_nonneg; lia).
  apply (round_half_even_unique (k * n * 2 ^ Z.max (- e) 0) (k * d * 2 ^ Z.max e 0));
    [nia | apply round_div_spec; nia |].
  replace (k * n * 2 ^ Z.max (- e) 0) with (k * (n * 2 ^ Z.max (- e) 0)) by ring.
  replace (k * d * 2 ^ Z.max e 0) with (k * (d * 2 ^ Z.max e 0)) by ring.
  apply round_half_even_scale; [lia | nia | apply round_div_spec; nia].
Qed.

Lemma py_div_round_scale (k n d : Z) :
  0 < k -> py_div_round (k * n) (k * d) = py_div_round n d.
Proof.
  intros Hk. unfold py_div_round.
  destruct (Z.eq_dec d 0) as [-> | Hd0].
  { rewrite Z.mul_0_r. reflexivity. }
  replace (k * d =? 0) with false by (symmetry; apply Z.eqb_neq; nia).
  replace (d =? 0) with false by (symmetry; apply Z.eqb_neq; lia).
  destruct (Z.eq_dec n 0) as [-> | Hn0].
  { rewrite Z.mul_0_r. reflexivity. }
  replace (k * n =? 0) with false by (symmetry; apply Z.eqb_neq; nia).
  replace (n =? 0) with false by (symmetry; apply Z.eqb_neq; lia).
  rewrite !Z.abs_mul, (Z.abs_eq k), !Z.sgn_mul, (Z.sgn_pos k) by lia.
  rewrite fl_div_pos_scale by lia. destruct (fl_div_pos (Z.abs n) (Z.abs d)) as [m e].
  destruct (_ <=? _); [reflexivity |]. f_equal. ring.
Qed.

Lemma ratio_counts_nonzero (T a b c : Z) :
  a + b + c <> 0 ->
  ratio_counts T (a, b, c) =
  match py_div_round (T * a) (a + b + c) with
  | None => None
  | Some x =>
      match py_div_round (T * b) (a + b + c) with
      | None => None
      | Some y => Some (x, y, T - x - y)
      end
  end.
Proof.
  intros Hs. unfold ratio_counts.
  replace (a + b + c =? 0) with false by (symmetry; apply Z.eqb_neq; exact Hs).
  reflexivity.
Qed.

(** Below [2^52] the allocator rounds the exact quotients. *)
Lemma ratio_counts_exact (T a b c : Z) :
  0 < a + b + c -> Z.abs (T * a) < 2 ^ 52 -> Z.abs (T * b) < 2 ^ 52 ->
  ratio_counts T (a, b, c) =
  Some (round_div (T * a) (a + b + c), round_div (T * b) (a + b + c),
        T - round_div (T * a) (a + b + c) - round_div (T * b) (a + b + c)).
Proof.
  intros Hs Ha Hb. rewrite ratio_counts_nonzero by lia.
  rewrite !py_div_round_exact by assumption. reflexivity.
Qed.

(** C1 (as amended).  For [T >= 0] and a non-negative ratio,
    [ratio_counts] raises ([None]) on the ratio [(0,0,0)]; whenever it
    returns [(x,y,z)], [x + y + z = T] and [x, y >= 0]; and when
    [T*a, T*b < 2^52] it returns, with [z >= -1]: the remainder [z] can be
    negative.  Past [2^52] the float quotients can give [z < -1], and past
    the float range [ratio_counts] raises [OverflowError]. *)
Theorem ratio_counts_sum_bounds (T a b c : Z) :
  0 <= T -> 0 <= a -> 0 <= b -> 0 <= c ->
  (a + b + c = 0 -> ratio_counts T (a, b, c) = None) /\
  (forall x y z, ratio_counts T (a, b, c) = Some (x, y, z) ->
     x + y + z = T /\ 0 <= x /\ 0 <= y) /\
  (0 < a + b + c -> T * a < 2 ^ 52 -> T * b < 2 ^ 52 ->
   exists x y z, ratio_counts T (a, b, c) = Some (x, y, z) /\
                 x + y + z = T /\ 0 <= x /\ 0 <= y /\ -1 <= z).
Proof.
  intros HT Ha Hb Hc. split; [| split].
  - intros Hs. unfold ratio_counts. rewrite Hs. reflexivity.
  - intros x y z. unfold ratio_counts.
    destruct (Z.eq_dec (a + b + c) 0) as [E | Ne]; [rewrite E; discriminate |].
    replace (a + b + c =? 0) with false by (symmetry; apply Z.eqb_neq; exact Ne).
    destruct (py_div_round (T * a) (a + b + c)) as [x'|] eqn:Ex; [| discriminate].
    destruct (py_div_round (T * b) (a + b + c)) as [y'|] eqn:Ey; [| discriminate].
    intros E. injection E as <- <- <-.
    apply py_div_round_nonneg in Ex; [| nia | lia].
    apply py_div_round_nonneg in Ey; [| nia | lia]. lia.
  - intros Hs Hta Htb. rewrite ratio_counts_exact by (rewrite ?Z.abs_eq; nia).
    set (s := a + b + c) in *.
    destruct (round_div_spec (T * a) s Hs) as [[Hx1 Hx2] _].
    destruct (round_div_spec (T * b) s Hs) as [[Hy1 Hy2] _].
    set (x := round_div (T * a) s) in *. set (y := round_div (T * b) s) in *.
    exists x, y, (T - x - y). repeat split; try reflexivity; try lia.
    + nia.
    + nia.
    + assert (T * a + T * b <= T * s) by (unfold s; nia).
      nia.
Qed.

Lemma ratio_counts_sum_bounds_witness :
  (0 <= 3 /\ 0 <= 1 /\ 0 <= 1 /\ 0 <= 0) /\
  ((1 + 1 + 0 = 0 -> ratio_counts 3 (1, 1, 0) = None) /\
   (forall x y z, ratio_counts 3 (1, 1, 0) = Some (x, y, z) ->
      x + y + z = 3 /\ 0 <= x /\ 0 <= y) /\
   (0 < 1 + 1 + 0 -> 3 * 1 < 2 ^ 52 -> 3 * 1 < 2 ^ 52 ->
    exists x y z, ratio_counts 3 (1, 1, 0) = Some (x, y, z) /\
                  x + y + z = 3 /\ 0 <= x /\ 0 <= y /\ -1 <= z)).
Proof.
  split; [lia | apply (ratio_counts_sum_bounds 3 1 1 0); lia].
Defined.

(** C1 fails as stated: [ratio_counts 3 (1,1,0)] is [(2,2,-1)], whose third
    quota is negative, and [ratio_counts 1 (0,0,0)] raises.  With large
    totals the float quotients give a remainder below [-1], and a total of
    [10^400] raises [OverflowError]. *)
Lemma ratio_counts_negative_remainder :
  ratio_counts 3 (1, 1, 0) = Some (2, 2, -1) /\ ratio_counts 1 (0, 0, 0) = None /\
  ratio_counts 3458764513820542080 (1, 2, 0) =
    Some (1152921504606847488, 2305843009213694976, -384) /\
  ratio_counts (10 ^ 400) (1, 0, 0) = None.
Proof. split; [reflexivity | split; [reflexivity | split; vm_compute; reflexivity]]. Qed.

(** C2 (as amended).  For a ratio with positive sum [s] and
    [|T*a|, |T*b| < 2^52], [ratio_counts] rounds [T*a/s] and [T*b/s] to
    nearest with ties to even (Python's [round]) and takes [T - x - y] as
    the third quota.  Past [2^52] the code rounds the float quotient
    instead, which can differ from the exact one. *)
Theorem ratio_counts_round_half_even (T a b c : Z) :
  0 < a + b + c -> Z.abs (T * a) < 2 ^ 52 -> Z.abs (T * b) < 2 ^ 52 ->
  exists x y, ratio_counts T (a, b, c) = Some (x, y, T - x - y) /\
              is_round_half_even (T * a) (a + b + c) x /\
              is_round_half_even (T * b) (a + b + c) y.
Proof.
  intros Hs Ha Hb. rewrite ratio_counts_exact by assumption.
  eexists _, _. split; [reflexivity | split; apply round_div_spec; exact Hs].
Qed.

Lemma ratio_counts_round_half_even_witness :
  (0 < 1 + 1 + 0 /\ Z.abs (5 * 1) < 2 ^ 52 /\ Z.abs (5 * 1) < 2 ^ 52) /\
  exists x y, ratio_counts 5 (1, 1, 0) = Some (x, y, 5 - x - y) /\
              is_round_half_even (5 * 1) (1 + 1 + 0) x /\
              is_round_half_even (5 * 1) (1 + 1 + 0) y.
Proof.
  split; [split; [lia | split; reflexivity] |].
  apply (ratio_counts_round_half_even 5 1 1 0); [lia | reflexivity | reflexivity].
Defined.

(** C2 fails as stated: at [T = 1] and ratio [(1,1,0)] the quotient [1/2]
    is a tie; [ratio_counts] rounds it to [0] (even), the spec's rounding
    ties away from zero to [1].  And at [T = 6755399441055748], ratio
    [(1,0,2)], the float quotient is [...249.5], rounded to [...250], while
    the exact quotient [...249.33] is nearest to [...249]. *)
Lemma ratio_counts_not_half_away :
  ratio_counts 1 (1, 1, 0) = Some (0, 0, 1) /\
  ratio_counts_half_away 1 (1, 1, 0) = Some (1, 1, -1) /\
  ratio_counts 1 (1, 1, 0) <> ratio_counts_half_away 1 (1, 1, 0) /\
  ratio_counts 6755399441055748 (1, 0, 2) =
    Some (2251799813685250, 0, 4503599627370498) /\
  ~ is_round_half_even (6755399441055748 * 1) 3 2251799813685250.
Proof.
  split; [reflexivity | split; [reflexivity | split; [discriminate |]]].
  split; [vm_compute; reflexivity |].
  intros [[_ H] _]. vm_compute in H. apply H. reflexivity.
Qed.

(** ** The classifier *)

(** Hits and score of one bucket entry. *)
Definition entry_hits (blob : string) (e : string * list string) : Z * Z :=
  count_hits blob (snd e).

Lemma count_hits_fold (t : string) (kws : list string) (k : Z) :
  0 <= k ->
  exists m, k <= m /\
    fold_left (fun '(hits, score) kw =>
                 if contains kw t then (hits + 1, score + 1) else (hits, score))
              kws (k, k) = (m, m).
Proof.
  revert k. induction kws as [|kw kws IH]; intros k Hk; simpl.
  - exists k. split; [lia | reflexivity].
  - destruct (contains kw t).
    + destruct (IH (k + 1) ltac:(lia)) as [m [Hm E]]. exists m. split; [lia | exact E].
    + exact (IH k Hk).
Qed.

(** [hits] and [score] coincide and are non-negative. *)
Lemma count_hits_diag (text : string) (kws : list string) :
  exists m, 0 <= m /\ count_hits text kws = (m, m).
Proof.
  unfold count_hits. destruct (count_hits_fold (norm text) kws 0) as [m [Hm E]];
    [lia | exists m; split; [lia | exact E]].
Qed.

Lemma entry_score_nonneg (blob : string) (e : string * list string) :
  0 <= snd (entry_hits blob e).
Proof.
  unfold entry_hits. destruct (count_hits_diag blob (snd e)) as [m [Hm E]].
  rewrite E. exact Hm.
Qed.

Lemma classify_loop_cases (blob : string) (bs : bucket_table) (st : cls_state) :
  (classify_loop blob bs st = st /\
   forall e, In e bs -> snd (entry_hits blob e) <= snd st) \/
  (exists l1 n kws l2,
      bs = app l1 ((n, kws) :: l2) /\
      classify_loop blob bs st =
        (Some n, fst (count_hits blob kws), snd (count_hits blob kws)) /\
      snd st < snd (count_hits blob kws) /\
      (forall e, In e l1 -> snd (entry_hits blob e) < snd (count_hits blob kws)) /\
      (forall e, In e l2 -> snd (entry_hits blob e) <= snd (count_hits blob kws))).
Proof.
  revert st. induction bs as [|[n0 k0] rest IH]; intros [[bb bh] bsc].
  - left. split; [reflexivity | intros e []].
  - simpl. unfold entry_hits at 1.
    destruct (count_hits blob k0) as [h0 s0] eqn:E0. simpl.
    rewrite Z.gtb_ltb.
    destruct (bsc <? s0) eqn:G; [apply Z.ltb_lt in G | apply Z.ltb_ge in G].
    + destruct (IH (Some n0, h0, s0)) as [[Hr Hle] | (l1 & n & kws & l2 & Hb & Hr & Hlt & H1 & H2)].
      * right. exists [], n0, k0, rest. rewrite E0. simpl.
        split; [reflexivity | split; [exact Hr | split; [exact G | split]]].
        -- intros e [].
        -- intros e He. exact (Hle e He).
      * right. exists ((n0, k0) :: l1), n, kws, l2. simpl in Hlt.
        split; [rewrite Hb; reflexivity | split; [exact Hr | split; [lia | split]]].
        -- intros e [<- | He]; [unfold entry_hits; simpl; rewrite E0; simpl; lia | exact (H1 e He)].
        -- exact H2.
    + destruct (IH (bb, bh, bsc)) as [[Hr Hle] | (l1 & n & kws & l2 & Hb & Hr & Hlt & H1 & H2)].
      * left. split; [exact Hr | ].
        intros e [<- | He]; [unfold entry_hits; simpl; rewrite E0; simpl; lia | exact (Hle e He)].
      * right. exists ((n0, k0) :: l1), n, kws, l2. simpl in Hlt.
        split; [rewrite Hb; reflexivity | split; [exact Hr | split; [simpl; lia | split]]].
        -- intros e [<- | He]; [unfold entry_hits; simpl; rewrite E0; simpl; lia | exact (H1 e He)].
        -- exact H2.
Qed.

(** On a non-empty table the winner is the first bucket, in declaration
    order, whose score is the largest. *)
Lemma classify_first_max (blob : string) (bs : bucket_table) :
  bs <> [] ->
  exists l1 n kws l2,
    bs = app l1 ((n, kws) :: l2) /\
    classify blob bs = (Some n, fst (count_hits blob kws), snd (count_hits blob kws)) /\
    (forall e, In e l1 -> snd (entry_hits blob e) < snd (count_hits blob kws)) /\
    (forall e, In e l2 -> snd (entry_hits blob e) <= snd (count_hits blob kws)).
Proof.
  intros Hne. unfold classify.
  destruct (classify_loop_cases blob bs (None, 0, -1)) as [[_ Hle] | (l1 & n & kws & l2 & Hb & Hr & _ & H1 & H2)].
  - exfalso. destruct bs as [|e bs]; [congruence |].
    specialize (Hle e (or_introl eq_refl)). pose proof (entry_score_nonneg blob e).
    simpl in Hle. lia.
  - exists l1, n, kws, l2. auto.
Qed.

(** C3.  Buckets are visited in declaration order and a bucket replaces
    the current best only on a strictly greater score, so the winner is the
    first bucket of largest score: every earlier bucket scores strictly
    less, every later one at most as much.  With the table
    [{"A": ["robot"], "B": ["diffusion"]}] and the text
    "A robot uses a diffusion model" both buckets score 1 and "A" wins. *)
Theorem classify_tie_first_wins (blob : string) (bs : bucket_table) :
  bs <> [] ->
  (exists l1 n kws l2,
      bs = app l1 ((n, kws) :: l2) /\
      classify blob bs = (Some n, fst (count_hits blob kws), snd (count_hits blob kws)) /\
      (forall e, In e l1 -> snd (entry_hits blob e) < snd (count_hits blob kws)) /\
      (forall e, In e l2 -> snd (entry_hits blob e) <= snd (count_hits blob kws))) /\
  (count_hits "A robot uses a diffusion model" ["robot"] = (1, 1) /\
   count_hits "A robot uses a diffusion model" ["diffusion"] = (1, 1) /\
   classify "A robot uses a diffusion model"
            [("A", ["robot"]); ("B", ["diffusion"])] = (Some "A", 1, 1)).
Proof.
  intros Hne. split; [exact (classify_first_max blob bs Hne) |].
  split; [reflexivity | split; reflexivity].
Qed.

Lemma classify_tie_first_wins_witness :
  [("A", ["robot"]); ("B", ["diffusion"])] <> [] /\
  (exists l1 n kws l2,
      [("A", ["robot"]); ("B", ["diffusion"])] = app l1 ((n, kws) :: l2) /\
      classify "robot" [("A", ["robot"]); ("B", ["diffusion"])] =
        (Some n, fst (count_hits "robot" kws), snd (count_hits "robot" kws)) /\
      (forall e, In e l1 -> snd (entry_hits "robot" e) < snd (count_hits "robot" kws)) /\
      (forall e, In e l2 -> snd (entry_hits "robot" e) <= snd (count_hits "robot" kws))) /\
  (count_hits "A robot uses a diffusion model" ["robot"] = (1, 1) /\
   count_hits "A robot uses a diffusion model" ["diffusion"] = (1, 1) /\
   classify "A robot uses a diffusion model"
            [("A", ["robot"]); ("B", ["diffusion"])] = (Some "A", 1, 1)).
Proof.
  split; [discriminate | apply (classify_tie_first_wins "robot"); discriminate].
Defined.

(** C6 (as amended).  On a non-empty table the winning bucket is one of the
    table's names and its hits equal its score; the winner has 0 hits
    exactly when every bucket scores 0, and then the winner is the first
    bucket of the table. *)
Theorem classify_bucket_configured (blob : string) (bs : bucket_table) :
  bs <> [] ->
  exists b h, classify blob bs = (Some b, h, h) /\ In b (map fst bs) /\
              (h = 0 <-> forall e, In e bs -> snd (entry_hits blob e) = 0) /\
              (h = 0 -> exists kws rest, bs = (b, kws) :: rest).
Proof.
  intros Hne.
  destruct (classify_first_max blob bs Hne) as (l1 & n & kws & l2 & Hb & Hr & H1 & H2).
  destruct (count_hits_diag blob kws) as [m [Hm E]]. rewrite E in Hr, H1, H2.
  simpl in Hr, H1, H2.
  assert (Hin : In (n, kws) bs) by (rewrite Hb, in_app_iff; right; left; reflexivity).
  exists n, m. split; [exact Hr | split; [| split]].
  - rewrite in_map_iff. exists (n, kws). split; [reflexivity | exact Hin].
  - split.
    + intros Hz e He. subst m. pose proof (entry_score_nonneg blob e).
      rewrite Hb, in_app_iff in He. destruct He as [He | [<- | He]].
      * specialize (H1 e He). lia.
      * unfold entry_hits. simpl. rewrite E. reflexivity.
      * specialize (H2 e He). lia.
    + intros Hall. specialize (Hall (n, kws) Hin).
      unfold entry_hits in Hall. simpl in Hall. rewrite E in Hall. exact Hall.
  - intros Hz. subst m. destruct l1 as [|e l1].
    + exists kws, l2. exact Hb.
    + exfalso. specialize (H1 e (or_introl eq_refl)).
      pose proof (entry_score_nonneg blob e). lia.
Qed.

Lemma classify_bucket_configured_witness :
  [("A", ["robot"]); ("B", ["slam"])] <> [] /\
  exists b h, classify "hello" [("A", ["robot"]); ("B", ["slam"])] = (Some b, h, h) /\
              In b (map fst [("A", ["robot"]); ("B", ["slam"])]) /\
              (h = 0 <-> forall e, In e [("A", ["robot"]); ("B", ["slam"])] ->
                                   snd (entry_hits "hello" e) = 0) /\
              (h = 0 -> exists kws rest,
                 [("A", ["robot"]); ("B", ["slam"])] = (b, kws) :: rest).
Proof.
  split; [discriminate | apply (classify_bucket_configured "hello"); discriminate].
Defined.

(** C6 fails as stated: with the non-empty keyword list ["robot"] and a
    text without it, bucket "A" is still selected, with 0 hits. *)
Lemma classify_zero_hit_winner :
  count_hits "hello" ["robot"] = (0, 0) /\
  classify "hello" [("A", ["robot"])] = (Some "A", 0, 0).
Proof. split; reflexivity. Qed.

(** ** Thresholding *)

Lemma existsb_eqb_In (x : string) (l : list string) :
  existsb (String.eqb x) l = true <-> In x l.
Proof.
  rewrite existsb_exists. split.
  - intros [y [Hy E]]. apply String.eqb_eq in E. subst. exact Hy.
  - intros H. exists x. split; [exact H | apply String.eqb_refl].
Qed.

(** C7.  A recent candidate not yet seen is dropped exactly when the hits
    of its winning bucket are strictly below [MIN_HITS_ANY_BUCKET]; with
    hits equal to the threshold its row is appended and its id added. *)
Theorem process_result_threshold (cfg : config) (since : Z) (rows : list row)
        (seen : list string) (res : result) (bb : option string) (h sc : Z) :
  since <= res_published res ->
  ~ In (res_pid res) seen ->
  classify (res_blob res) (BUCKETS cfg) = (bb, h, sc) ->
  (h < MIN_HITS_ANY_BUCKET cfg ->
     process_result cfg since (rows, seen) res = (rows, seen)) /\
  (MIN_HITS_ANY_BUCKET cfg <= h ->
     process_result cfg since (rows, seen) res =
       (app rows [mk_row res bb sc], res_pid res :: seen)).
Proof.
  intros Hrec Hseen Hcls. unfold process_result.
  replace (res_published res <? since) with false by (symmetry; apply Z.ltb_ge; lia).
  destruct (existsb (String.eqb (res_pid res)) seen) eqn:Ex;
    [apply existsb_eqb_In in Ex; contradiction |].
  rewrite Hcls. split; intros Hh.
  - replace (h <? MIN_HITS_ANY_BUCKET cfg) with true by (symmetry; apply Z.ltb_lt; lia).
    reflexivity.
  - replace (h <? MIN_HITS_ANY_BUCKET cfg) with false by (symmetry; apply Z.ltb_ge; lia).
    reflexivity.
Qed.

Lemma process_result_threshold_witness :
  (0 <= res_published sample_result /\
   ~ In (res_pid sample_result) [] /\
   classify (res_blob sample_result) (BUCKETS default_config) =
     (Some "P1_world_model_vla_3d", 2, 2)) /\
  ((2 < MIN_HITS_ANY_BUCKET default_config ->
      process_result default_config 0 ([], []) sample_result = ([], [])) /\
   (MIN_HITS_ANY_BUCKET default_config <= 2 ->
      process_result default_config 0 ([], []) sample_result =
        (app [] [mk_row sample_result (Some "P1_world_model_vla_3d") 2],
         res_pid sample_result :: []))).
Proof.
  assert (H1 : 0 <= res_published sample_result) by (simpl; lia).
  assert (H2 : ~ In (res_pid sample_result) []) by (intros []).
  assert (H3 : classify (res_blob sample_result) (BUCKETS default_config) =
               (Some "P1_world_model_vla_3d", 2, 2)) by reflexivity.
  split; [split; [exact H1 | split; [exact H2 | exact H3]] |].
  exact (process_result_threshold default_config 0 [] [] sample_result _ 2 2 H1 H2 H3).
Defined.

(** ** Selection *)

Lemma row_before_total (r1 r2 : row) :
  row_before r1 r2 = false -> row_before r2 r1 = true.
Proof.
  unfold row_before. intros H. apply orb_false_iff in H as [H1 H2].
  apply Z.ltb_ge in H1. apply orb_true_iff.
  destruct (Z.eq_dec (score r1) (score r2)) as [E | E].
  - right. rewrite E, Z.eqb_refl in H2. simpl in H2. apply Z.leb_gt in H2.
    rewrite E, Z.eqb_refl. simpl. apply Z.leb_le. lia.
  - left. apply Z.ltb_lt. lia.
Qed.

Lemma insert_row_perm (r : row) (l : list row) : Permutation (r :: l) (insert_row r l).
Proof.
  induction l as [|r' l IH]; simpl; [reflexivity |].
  destruct (row_before r r'); [reflexivity |].
  transitivity (r' :: r :: l); [apply perm_swap | apply perm_skip, IH].
Qed.

Lemma sort_rows_perm (l : list row) : Permutation l (sort_rows l).
Proof.
  induction l as [|r l IH]; simpl; [reflexivity |].
  transitivity (r :: sort_rows l); [apply perm_skip, IH | apply insert_row_perm].
Qed.

Lemma insert_row_sorted (r : row) (l : list row) :
  Sorted (fun a b => row_before a b = true) l ->
  Sorted (fun a b => row_before a b = true) (insert_row r l).
Proof.
  induction l as [|r' l IH]; intros Hs; simpl.
  - repeat constructor.
  - destruct (row_before r r') eqn:E.
    + constructor; [exact Hs | constructor; exact E].
    + apply Sorted_inv in Hs as [Hl Hhd]. constructor; [apply IH, Hl |].
      destruct l as [|r'' l]; simpl.
      * constructor. apply row_before_total, E.
      * destruct (row_before r r'') eqn:E2; constructor.
        -- apply row_before_total, E.
        -- inversion Hhd; assumption.
Qed.

Lemma sort_rows_sorted (l : list row) :
  Sorted (fun a b => row_before a b = true) (sort_rows l).
Proof.
  induction l as [|r l IH]; simpl; [constructor | apply insert_row_sorted, IH].
Qed.

Lemma head_nonneg {A} (n : Z) (l : list A) : 0 <= n -> head n l = firstn (Z.to_nat n) l.
Proof. intros Hn. unfold head. replace (0 <=? n) with true by (symmetry; apply Z.leb_le; lia). reflexivity. Qed.

Lemma firstn_incl {A} (k : nat) (l : list A) : incl (firstn k l) l.
Proof.
  intros x Hx. rewrite <- (firstn_skipn k l). apply in_or_app. left. exact Hx.
Qed.

Lemma head_incl {A} (n : Z) (l : list A) : incl (head n l) l.
Proof. unfold head. destruct (0 <=? n); apply firstn_incl. Qed.

Lemma filter_all_true {A} (f : A -> bool) (l : list A) :
  (forall x, In x l -> f x = true) -> filter f l = l.
Proof.
  induction l as [|x l IH]; intros H; simpl; [reflexivity |].
  rewrite (H x (or_introl eq_refl)), IH; [reflexivity | intros y Hy; apply H; right; exact Hy].
Qed.

Lemma filter_all_false {A} (f : A -> bool) (l : list A) :
  (forall x, In x l -> f x = false) -> filter f l = [].
Proof.
  induction l as [|x l IH]; intros H; simpl; [reflexivity |].
  rewrite (H x (or_introl eq_refl)). apply IH. intros y Hy; apply H; right; exact Hy.
Qed.

Lemma in_firstn_filter {A} (f : A -> bool) (k : nat) (l : list A) (x : A) :
  In x (firstn k (filter f l)) -> f x = true.
Proof. intros Hx. apply firstn_incl, filter_In in Hx. apply Hx. Qed.

(** Two bucket prefixes ["P" ++ a] and ["P" ++ b] that both match a row
    are the same prefix. *)
Lemma bucket_starts_excl (a b : ascii) (r : row) :
  bucket_starts (String "P" (String a EmptyString)) r = true ->
  bucket_starts (String "P" (String b EmptyString)) r = true -> a = b.
Proof.
  unfold bucket_starts. intros Ha Hb.
  destruct (bucket r) as [s|]; [| discriminate].
  apply prefix_correct in Ha, Hb. simpl in Ha, Hb. rewrite Ha in Hb.
  injection Hb as E. exact E.
Qed.

Lemma bucket_starts_other (a b : ascii) (r : row) :
  a <> b ->
  bucket_starts (String "P" (String a EmptyString)) r = true ->
  bucket_starts (String "P" (String b EmptyString)) r = false.
Proof.
  intros Hab Ha. destruct (bucket_starts (String "P" (String b EmptyString)) r) eqn:Hb;
    [exfalso; apply Hab; exact (bucket_starts_excl a b r Ha Hb) | reflexivity].
Qed.

Lemma filter_firstn_prefix {A} (f : A -> bool) (k : nat) (l : list A) :
  exists rest, app (filter f (firstn k l)) rest = filter f l.
Proof.
  exists (filter f (skipn k l)). rewrite <- filter_app, firstn_skipn. reflexivity.
Qed.

Lemma P1_not_P2 r : bucket_starts "P1" r = true -> bucket_starts "P2" r = false.
Proof. apply bucket_starts_other. discriminate. Qed.
Lemma P1_not_P3 r : bucket_starts "P1" r = true -> bucket_starts "P3" r = false.
Proof. apply bucket_starts_other. discriminate. Qed.
Lemma P2_not_P1 r : bucket_starts "P2" r = true -> bucket_starts "P1" r = false.
Proof. apply bucket_starts_other. discriminate. Qed.
Lemma P2_not_P3 r : bucket_starts "P2" r = true -> bucket_starts "P3" r = false.
Proof. apply bucket_starts_other. discriminate. Qed.
Lemma P3_not_P1 r : bucket_starts "P3" r = true -> bucket_starts "P1" r = false.
Proof. apply bucket_starts_other. discriminate. Qed.
Lemma P3_not_P2 r : bucket_starts "P3" r = true -> bucket_starts "P2" r = false.
Proof. apply bucket_starts_other. discriminate. Qed.

(** Each per-bucket slice only holds rows of its bucket. *)
Lemma slice_bucket (p : string) (k : nat) (rows : list row) (g : row -> bool) :
  (forall r, bucket_starts p r = true -> g r = false) ->
  filter g (firstn k (bucket_rows p rows)) = [].
Proof.
  intros H. apply filter_all_false. intros x Hx. apply H.
  exact (in_firstn_filter _ _ _ _ Hx).
Qed.

Lemma slice_own (p : string) (k : nat) (rows : list row) :
  filter (bucket_starts p) (firstn k (bucket_rows p rows)) = firstn k (bucket_rows p rows).
Proof.
  apply filter_all_true. intros x Hx. exact (in_firstn_filter _ _ _ _ Hx).
Qed.

(** C4.  With non-negative quotas and total, the selector sorts the whole
    pool once (a permutation of the pool, ordered by score then timestamp,
    both descending), takes the first [q_i] rows of bucket [P_i] from it,
    concatenates P1, P2, P3 and truncates to [total].  Hence the shortlist
    has at most [total] rows, the rows of bucket [P_i] in it are a prefix
    of the first [q_i] rows of that bucket (no backfill from another
    bucket), and without truncation ([q1+q2+q3 <= total]) they are exactly
    those.  The configured quotas are [(6,3,1)] for [total = 10]. *)
Theorem select_with_quota_slices (total q1 q2 q3 : Z) (rows : list row) :
  0 <= total -> 0 <= q1 -> 0 <= q2 -> 0 <= q3 ->
  Permutation rows (sort_rows rows) /\
  Sorted (fun a b => row_before a b = true) (sort_rows rows) /\
  select_with total q1 q2 q3 rows =
    firstn (Z.to_nat total)
      (app (firstn (Z.to_nat q1) (bucket_rows "P1" rows))
        (app (firstn (Z.to_nat q2) (bucket_rows "P2" rows))
             (firstn (Z.to_nat q3) (bucket_rows "P3" rows)))) /\
  (length (select_with total q1 q2 q3 rows) <= Z.to_nat total)%nat /\
  (exists rest, app (filter (bucket_starts "P1") (select_with total q1 q2 q3 rows)) rest
                = firstn (Z.to_nat q1) (bucket_rows "P1" rows)) /\
  (exists rest, app (filter (bucket_starts "P2") (select_with total q1 q2 q3 rows)) rest
                = firstn (Z.to_nat q2) (bucket_rows "P2" rows)) /\
  (exists rest, app (filter (bucket_starts "P3") (select_with total q1 q2 q3 rows)) rest
                = firstn (Z.to_nat q3) (bucket_rows "P3" rows)) /\
  (q1 + q2 + q3 <= total ->
     filter (bucket_starts "P1") (select_with total q1 q2 q3 rows)
       = firstn (Z.to_nat q1) (bucket_rows "P1" rows) /\
     filter (bucket_starts "P2") (select_with total q1 q2 q3 rows)
       = firstn (Z.to_nat q2) (bucket_rows "P2" rows) /\
     filter (bucket_starts "P3") (select_with total q1 q2 q3 rows)
       = firstn (Z.to_nat q3) (bucket_rows "P3" rows)) /\
  select default_config rows = Some (select_with 10 6 3 1 rows).
Proof.
  intros Ht H1 H2 H3.
  assert (Hsel : select_with total q1 q2 q3 rows =
    firstn (Z.to_nat total)
      (app (firstn (Z.to_nat q1) (bucket_rows "P1" rows))
        (app (firstn (Z.to_nat q2) (bucket_rows "P2" rows))
             (firstn (Z.to_nat q3) (bucket_rows "P3" rows))))).
  { unfold select_with, bucket_rows. rewrite !head_nonneg by assumption. reflexivity. }
  set (A := firstn (Z.to_nat q1) (bucket_rows "P1" rows)) in *.
  set (B := firstn (Z.to_nat q2) (bucket_rows "P2" rows)) in *.
  set (C := firstn (Z.to_nat q3) (bucket_rows "P3" rows)) in *.
  assert (F1 : filter (bucket_starts "P1") (app A (app B C)) = A).
  { rewrite !filter_app. unfold A, B, C.
    rewrite slice_own, (slice_bucket "P2"), (slice_bucket "P3");
      [simpl; rewrite app_nil_r; reflexivity | exact P3_not_P1 | exact P2_not_P1]. }
  assert (F2 : filter (bucket_starts "P2") (app A (app B C)) = B).
  { rewrite !filter_app. unfold A, B, C.
    rewrite slice_own, (slice_bucket "P1"), (slice_bucket "P3");
      [rewrite app_nil_r; reflexivity | exact P3_not_P2 | exact P1_not_P2]. }
  assert (F3 : filter (bucket_starts "P3") (app A (app B C)) = C).
  { rewrite !filter_app. unfold A, B, C.
    rewrite slice_own, (slice_bucket "P1"), (slice_bucket "P2");
      [reflexivity | exact P2_not_P3 | exact P1_not_P3]. }
  split; [apply sort_rows_perm |].
  split; [apply sort_rows_sorted |].
  split; [exact Hsel |].
  split; [rewrite Hsel, length_firstn; lia |].
  rewrite Hsel.
  split; [destruct (filter_firstn_prefix (bucket_starts "P1") (Z.to_nat total) (app A (app B C)))
            as [rest Hr]; exists rest; rewrite Hr; exact F1 |].
  split; [destruct (filter_firstn_prefix (bucket_starts "P2") (Z.to_nat total) (app A (app B C)))
            as [rest Hr]; exists rest; rewrite Hr; exact F2 |].
  split; [destruct (filter_firstn_prefix (bucket_starts "P3") (Z.to_nat total) (app A (app B C)))
            as [rest Hr]; exists rest; rewrite Hr; exact F3 |].
  split; [| reflexivity].
  intros Hq. rewrite firstn_all2.
  - split; [exact F1 | split; [exact F2 | exact F3]].
  - rewrite !length_app. unfold A, B, C. rewrite !length_firstn. lia.
Qed.

Lemma select_with_quota_slices_witness :
  (0 <= 10 /\ 0 <= 6 /\ 0 <= 3 /\ 0 <= 1) /\
  (Permutation [] (sort_rows []) /\
  Sorted (fun a b => row_before a b = true) (sort_rows []) /\
  select_with 10 6 3 1 [] =
    firstn (Z.to_nat 10)
      (app (firstn (Z.to_nat 6) (bucket_rows "P1" []))
        (app (firstn (Z.to_nat 3) (bucket_rows "P2" []))
             (firstn (Z.to_nat 1) (bucket_rows "P3" [])))) /\
  (length (select_with 10 6 3 1 []) <= Z.to_nat 10)%nat /\
  (exists rest, app (filter (bucket_starts "P1") (select_with 10 6 3 1 [])) rest
                = firstn (Z.to_nat 6) (bucket_rows "P1" [])) /\
  (exists rest, app (filter (bucket_starts "P2") (select_with 10 6 3 1 [])) rest
                = firstn (Z.to_nat 3) (bucket_rows "P2" [])) /\
  (exists rest, app (filter (bucket_starts "P3") (select_with 10 6 3 1 [])) rest
                = firstn (Z.to_nat 1) (bucket_rows "P3" [])) /\
  (6 + 3 + 1 <= 10 ->
     filter (bucket_starts "P1") (select_with 10 6 3 1 [])
       = firstn (Z.to_nat 6) (bucket_rows "P1" []) /\
     filter (bucket_starts "P2") (select_with 10 6 3 1 [])
       = firstn (Z.to_nat 3) (bucket_rows "P2" []) /\
     filter (bucket_starts "P3") (select_with 10 6 3 1 [])
       = firstn (Z.to_nat 1) (bucket_rows "P3" [])) /\
  select default_config [] = Some (select_with 10 6 3 1 [])).
Proof.
  split; [lia | apply (select_with_quota_slices 10 6 3 1 []); lia].
Defined.

(** ** Exporters *)

Lemma str_app_assoc (s1 s2 s3 : string) : (s1 ++ s2) ++ s3 = s1 ++ (s2 ++ s3).
Proof. induction s1 as [|c s1 IH]; simpl; [reflexivity | rewrite IH; reflexivity]. Qed.

Lemma str_app_nil_r (s : string) : s ++ EmptyString = s.
Proof. induction s as [|c s IH]; simpl; [reflexivity | rewrite IH; reflexivity]. Qed.

Lemma substring_short (n : nat) (s : string) :
  (String.length s <= n)%nat -> substring 0 n s = s.
Proof.
  revert n. induction s as [|c s IH]; intros n Hn.
  - destruct n; reflexivity.
  - destruct n as [|n]; simpl in Hn; [lia |]. simpl. rewrite IH by lia. reflexivity.
Qed.

Lemma substring_long (n : nat) (s : string) :
  (n <= String.length s)%nat ->
  String.length (substring 0 n s) = n /\ prefix (substring 0 n s) s = true.
Proof.
  revert n. induction s as [|c s IH]; intros n Hn.
  - destruct n; simpl in Hn; [split; reflexivity | lia].
  - destruct n as [|n]; [split; reflexivity |]. simpl in Hn.
    destruct (IH n ltac:(lia)) as [Hl Hp]. simpl. split; [rewrite Hl; reflexivity |].
    destruct (ascii_dec c c) as [_ | ne]; [exact Hp | contradiction ne; reflexivity].
Qed.

(** C8.  Every digest entry ends with the first 300 characters of the
    abstract followed by the marker "...", whatever the abstract's length:
    an abstract of at most 300 characters is kept whole and still gets the
    marker; a longer one is cut to its first 300 characters. *)
Theorem md_entry_ellipsis (r : row) :
  (exists pre, md_entry r = pre ++ "  _" ++ substring 0 300 (abstract r) ++ "..._" ++ nl) /\
  ((String.length (abstract r) <= 300)%nat ->
     exists pre, md_entry r = pre ++ "  _" ++ abstract r ++ "..._" ++ nl) /\
  ((300 <= String.length (abstract r))%nat ->
     String.length (substring 0 300 (abstract r)) = 300%nat /\
     prefix (substring 0 300 (abstract r)) (abstract r) = true).
Proof.
  assert (Hpre : exists pre, md_entry r =
            pre ++ "  _" ++ substring 0 300 (abstract r) ++ "..._" ++ nl).
  { exists ("- **[" ++ pid r ++ "](" ++ url r ++ ")**  " ++ nl ++
            "  " ++ title r ++ "  " ++ nl ++ "  *" ++ authors r ++ "*  " ++ nl).
    unfold md_entry. rewrite !str_app_assoc. reflexivity. }
  split; [exact Hpre |]. split.
  - intros Hl. rewrite substring_short in Hpre by exact Hl. exact Hpre.
  - apply substring_long.
Qed.

(** C8 on a short abstract: "abc" is rendered as "abc..." . *)
Lemma md_entry_short_abstract :
  md_entry {| pid := "2410.00001"; title := "T"; authors := "A";
              published := 0; url := "u"; bucket := None; score := 0;
              abstract := "abc" |} =
  "- **[2410.00001](u)**  " ++ nl ++ "  T  " ++ nl ++ "  *A*  " ++ nl ++
  "  _abc..._" ++ nl.
Proof. reflexivity. Qed.

Lemma split_comma_nonempty (s : string) : exists p ps, split_comma s = p :: ps.
Proof.
  induction s as [|c s [p [ps IH]]]; simpl; [eexists _, _; reflexivity |].
  rewrite IH. destruct (Ascii.eqb c ","); eexists _, _; reflexivity.
Qed.

Lemma split_comma_app (x s p : string) (ps : list string) :
  comma_free x = true -> split_comma s = p :: ps ->
  split_comma (x ++ s) = (x ++ p) :: ps.
Proof.
  intros Hx Hs. induction x as [|c x IH]; simpl; [exact Hs |].
  unfold comma_free in Hx. simpl in Hx. apply andb_true_iff in Hx as [Hc Hx].
  rewrite IH by exact Hx. apply negb_true_iff in Hc. rewrite Hc. reflexivity.
Qed.

Lemma split_comma_comma (s : string) :
  split_comma (String "," s) = EmptyString :: split_comma s.
Proof. reflexivity. Qed.

Lemma strip_space (p : string) : strip (String " " p) = strip p.
Proof. reflexivity. Qed.

(** Splitting the comma-joined names back and stripping each piece gives
    the stripped names, as long as no name contains a comma. *)
Lemma split_join_names (names : list string) :
  names <> [] -> (forall n, In n names -> comma_free n = true) ->
  map strip (split_comma (join ", " names)) = map strip names.
Proof.
  induction names as [|x l IH]; intros Hne Hcf; [congruence |].
  destruct l as [|y l].
  - unfold join. simpl.
    rewrite <- (str_app_nil_r x) at 1.
    rewrite (split_comma_app x EmptyString EmptyString []);
      [rewrite str_app_nil_r; reflexivity | apply Hcf; left; reflexivity | reflexivity].
  - change (join ", " (x :: y :: l)) with (x ++ ", " ++ join ", " (y :: l)).
    destruct (split_comma_nonempty (join ", " (y :: l))) as [p [ps Hs]].
    assert (Hsp : split_comma (", " ++ join ", " (y :: l)) = EmptyString :: (" " ++ p) :: ps).
    { change (", " ++ join ", " (y :: l)) with (String "," (" " ++ join ", " (y :: l))).
      rewrite split_comma_comma.
      rewrite (split_comma_app " " _ p ps); [reflexivity | reflexivity | exact Hs]. }
    rewrite (split_comma_app x _ EmptyString ((" " ++ p) :: ps));
      [| apply Hcf; left; reflexivity | exact Hsp].
    rewrite str_app_nil_r. simpl map. rewrite strip_space.
    specialize (IH ltac:(discriminate) ltac:(intros n Hn; apply Hcf; right; exact Hn)).
    rewrite Hs in IH. simpl in IH. injection IH as E1 E2.
    simpl. rewrite E1, E2. reflexivity.
Qed.

(** C5 (as amended).  Every record is, in order, a TY line, a TI line,
    the AU lines, a UR line, an ER line and a blank line.  For a row whose
    authors field joins names without commas, the AU lines are one per
    author (name stripped); an empty author list gives one AU line with an
    empty name, not zero lines.  The exporter never fails. *)
Theorem ris_record_authors (r : row) (names : list string) :
  authors r = join ", " names ->
  (forall n, In n names -> comma_free n = true) ->
  ris_record r =
    app ["TY  - JOUR"; "TI  - " ++ title r]
        (app (match names with
              | [] => ["AU  - "]
              | _ => map (fun n => "AU  - " ++ strip n) names
              end)
             ["UR  - " ++ url r; "ER  - "; ""]).
Proof.
  intros Ha Hcf. unfold ris_record. rewrite Ha. f_equal. f_equal.
  destruct names as [|n ns]; [reflexivity |].
  rewrite <- (map_map strip (fun s => "AU  - " ++ s)).
  rewrite <- (map_map strip (fun s => "AU  - " ++ s) (n :: ns)).
  rewrite split_join_names; [reflexivity | discriminate | exact Hcf].
Qed.

Lemma ris_record_authors_witness :
  (authors (mk_row sample_result None 0) = join ", " ["Ann Lee"] /\
   (forall n, In n ["Ann Lee"] -> comma_free n = true)) /\
  ris_record (mk_row sample_result None 0) =
    app ["TY  - JOUR"; "TI  - " ++ title (mk_row sample_result None 0)]
        (app (match ["Ann Lee"] with
              | [] => ["AU  - "]
              | _ => map (fun n => "AU  - " ++ strip n) ["Ann Lee"]
              end)
             ["UR  - " ++ url (mk_row sample_result None 0); "ER  - "; ""]).
Proof.
  assert (H1 : authors (mk_row sample_result None 0) = join ", " ["Ann Lee"]) by reflexivity.
  assert (H2 : forall n, In n ["Ann Lee"] -> comma_free n = true)
    by (intros n [<- | []]; reflexivity).
  split; [split; [exact H1 | exact H2] | exact (ris_record_authors _ _ H1 H2)].
Defined.

(** C5 fails as stated: a row with an empty author list gets one AU line. *)
Lemma ris_record_empty_authors :
  ris_record (mk_row {| res_published := 100; res_short_id := "2410.00002v1";
                        res_title := "T"; res_summary := "S"; res_authors := [];
                        res_entry_id := "u" |} None 0) =
    ["TY  - JOUR"; "TI  - T"; "AU  - "; "UR  - u"; "ER  - "; ""].
Proof. reflexivity. Qed.

(** ** The seen-ledger *)

Lemma dedup_In (x : string) (l : list string) : In x (dedup l) <-> In x l.
Proof.
  induction l as [|y l IH]; simpl; [tauto |].
  destruct (existsb (String.eqb y) l) eqn:E.
  - rewrite IH. apply existsb_eqb_In in E. split; [tauto | intros [<- | H]; tauto].
  - simpl. rewrite IH. tauto.
Qed.

Lemma dedup_NoDup (l : list string) : NoDup (dedup l).
Proof.
  induction l as [|y l IH]; simpl; [constructor |].
  destruct (existsb (String.eqb y) l) eqn:E; [exact IH |].
  constructor; [| exact IH]. rewrite dedup_In. intros H.
  apply existsb_eqb_In in H. congruence.
Qed.

Lemma dedup_id (l : list string) : NoDup l -> dedup l = l.
Proof.
  induction l as [|y l IH]; intros Hnd; simpl; [reflexivity |].
  apply NoDup_cons_iff in Hnd as [Hy Hnd].
  destruct (existsb (String.eqb y) l) eqn:E.
  - apply existsb_eqb_In in E. contradiction.
  - rewrite IH by exact Hnd. reflexivity.
Qed.

Lemma split_lines_nonempty (b : bool) (s : string) :
  exists p ps, split_lines_from b s = p :: ps.
Proof.
  revert b. induction s as [|c s IH]; intros b; simpl; [eexists _, _; reflexivity |].
  destruct (b && Ascii.eqb c (ascii_of_nat 10)); [apply IH |].
  destruct (is_line_boundary c); [eexists _, _; reflexivity |].
  destruct (IH false) as [p [ps E]]. rewrite E. eexists _, _; reflexivity.
Qed.

Lemma split_lines_app (x s p : string) (ps : list string) :
  line_free x = true -> split_lines_from false s = p :: ps ->
  split_lines_from false (x ++ s) = (x ++ p) :: ps.
Proof.
  intros Hx Hs. induction x as [|c x IH]; simpl; [exact Hs |].
  unfold line_free in Hx. simpl in Hx. apply andb_true_iff in Hx as [Hc Hx].
  apply negb_true_iff in Hc. rewrite Hc, IH by exact Hx. reflexivity.
Qed.

Lemma split_lines_nl (s : string) :
  split_lines_from false (nl ++ s) = EmptyString :: split_lines_from false s.
Proof. reflexivity. Qed.

Lemma split_lines_join (l : list string) :
  l <> [] -> (forall x, In x l -> line_free x = true) ->
  split_lines (join nl l) = l.
Proof.
  unfold split_lines. induction l as [|x l IH]; intros Hne Hlf; [congruence |].
  destruct l as [|y l].
  - unfold join. simpl. rewrite <- (str_app_nil_r x) at 1.
    rewrite (split_lines_app x EmptyString EmptyString []);
      [rewrite str_app_nil_r; reflexivity | apply Hlf; left; reflexivity | reflexivity].
  - change (join nl (x :: y :: l)) with (x ++ nl ++ join nl (y :: l)).
    rewrite (split_lines_app x _ EmptyString (y :: l)).
    + rewrite str_app_nil_r. reflexivity.
    + apply Hlf. left. reflexivity.
    + rewrite split_lines_nl, IH;
        [reflexivity | discriminate | intros z Hz; apply Hlf; right; exact Hz].
Qed.

Lemma split_lines_line_free (b : bool) (s : string) :
  forall x, In x (split_lines_from b s) -> line_free x = true.
Proof.
  revert b. induction s as [|c s IH]; intros b x Hx; simpl in Hx.
  - destruct Hx as [<- | []]. reflexivity.
  - destruct (b && Ascii.eqb c (ascii_of_nat 10)); [exact (IH _ x Hx) |].
    destruct (is_line_boundary c) eqn:Hc.
    + destruct Hx as [<- | Hx]; [reflexivity | exact (IH _ x Hx)].
    + destruct (split_lines_from false s) as [|p ps] eqn:E.
      * destruct Hx as [<- | []]. unfold line_free. simpl. rewrite Hc. reflexivity.
      * destruct Hx as [<- | Hx].
        -- unfold line_free. simpl. rewrite Hc. simpl.
           apply (IH false p). rewrite E. left. reflexivity.
        -- apply (IH false x). rewrite E. right. exact Hx.
Qed.

Lemma drop_last_empty_incl (l : list string) : incl (drop_last_empty l) l.
Proof.
  induction l as [|x l IH]; simpl; [intros y [] |].
  destruct l as [|z l].
  - destruct (String.eqb x EmptyString); [intros y [] | apply incl_refl].
  - intros y [<- | Hy]; [left; reflexivity | right; exact (IH y Hy)].
Qed.

Lemma drop_last_empty_keep (l : list string) :
  last l EmptyString <> EmptyString -> drop_last_empty l = l.
Proof.
  induction l as [|x l IH]; intros Hl; simpl; [reflexivity |].
  destruct l as [|z l].
  - simpl in Hl. destruct (String.eqb x EmptyString) eqn:E;
      [apply String.eqb_eq in E; contradiction | reflexivity].
  - rewrite IH; [reflexivity | exact Hl].
Qed.

(** Everything [load_seen] returns is a line without boundaries. *)
Lemma load_seen_line_free (f : option string) :
  forall x, In x (load_seen f) -> line_free x = true.
Proof.
  destruct f as [txt|]; simpl; [| intros x []].
  intros x Hx. apply dedup_In, drop_last_empty_incl in Hx.
  exact (split_lines_line_free false txt x Hx).
Qed.

Lemma load_seen_NoDup (f : option string) : NoDup (load_seen f).
Proof. destruct f; simpl; [apply dedup_NoDup | constructor]. Qed.

Lemma leb_empty (a : string) : String.leb a EmptyString = true -> a = EmptyString.
Proof. destruct a; [reflexivity | discriminate]. Qed.

(** In a sorted list whose last element is [""], every element is [""]. *)
Lemma sorted_last_empty (l : list string) :
  Sorted (fun a b => String.leb a b = true) l ->
  last l EmptyString = EmptyString -> forall x, In x l -> x = EmptyString.
Proof.
  induction l as [|a l IH]; intros Hs Hl x Hx; [destruct Hx |].
  apply Sorted_inv in Hs as [Hs Hhd].
  destruct l as [|b l].
  - destruct Hx as [<- | []]. exact Hl.
  - assert (Hall : forall y, In y (b :: l) -> y = EmptyString) by (apply IH; assumption).
    destruct Hx as [<- | Hx]; [| exact (Hall x Hx)].
    inversion Hhd as [| ? ? Hab]; subst.
    rewrite (Hall b (or_introl eq_refl)) in Hab. apply leb_empty. exact Hab.
Qed.

Lemma NoDup_all_empty (S : list string) :
  NoDup S -> S <> [] -> (forall x, In x S -> x = EmptyString) -> S = [EmptyString].
Proof.
  intros Hnd Hne Hall. destruct S as [|a [|b S]]; [congruence | |].
  - rewrite (Hall a (or_introl eq_refl)). reflexivity.
  - exfalso. apply NoDup_cons_iff in Hnd as [Hnin _]. apply Hnin.
    rewrite (Hall a (or_introl eq_refl)), <- (Hall b (or_intror (or_introl eq_refl))).
    left. reflexivity.
Qed.

Lemma sort_nil : StringSort.sort [] = [].
Proof. reflexivity. Qed.

(** [load_seen (save_seen S)] for a set [S] of lines: [S] itself, in
    sorted order, except for [S = {""}], which comes back empty. *)
Lemma load_save (S : list string) :
  NoDup S -> (forall x, In x S -> line_free x = true) ->
  load_seen (Some (save_seen S)) =
    if list_eq_dec string_dec S [EmptyString] then [] else StringSort.sort S.
Proof.
  intros Hnd Hlf. pose proof (StringSort.Permuted_sort S) as Hp.
  pose proof (StringSort.Sorted_sort S) as Hs.
  destruct (list_eq_dec string_dec S [EmptyString]) as [-> | Hne].
  - reflexivity.
  - destruct S as [|a S0] eqn:ES.
    + reflexivity.
    + rewrite <- ES in *.
      assert (Hsne : StringSort.sort S <> []).
      { intros E. rewrite E in Hp. apply Permutation_sym, Permutation_nil in Hp. congruence. }
      unfold load_seen, splitlines, save_seen.
      rewrite split_lines_join;
        [| exact Hsne | intros x Hx; apply Hlf, (Permutation_in _ (Permutation_sym Hp)), Hx].
      rewrite drop_last_empty_keep.
      * apply dedup_id. exact (Permutation_NoDup Hp Hnd).
      * intros Hl. apply Hne. apply NoDup_all_empty; [exact Hnd | congruence |].
        intros x Hx. apply (sorted_last_empty _ Hs Hl). exact (Permutation_in _ Hp Hx).
Qed.

Lemma load_save_idem (S : list string) :
  NoDup S -> (forall x, In x S -> line_free x = true) ->
  forall x, In x (load_seen (Some (save_seen (load_seen (Some (save_seen S)))))) <->
            In x (load_seen (Some (save_seen S))).
Proof.
  intros Hnd Hlf. rewrite (load_save S Hnd Hlf).
  destruct (list_eq_dec string_dec S [EmptyString]) as [_ | Hne].
  - reflexivity.
  - pose proof (StringSort.Permuted_sort S) as Hp.
    rewrite load_save.
    + destruct (list_eq_dec string_dec (StringSort.sort S) [EmptyString]) as [E | _].
      * exfalso. apply Hne. rewrite E in Hp. apply Permutation_sym, Permutation_length_1_inv in Hp. exact Hp.
      * intros x. split; apply Permutation_in;
          [apply Permutation_sym |]; apply StringSort.Permuted_sort.
    + exact (Permutation_NoDup Hp Hnd).
    + intros x Hx. apply Hlf. exact (Permutation_in _ (Permutation_sym Hp) Hx).
Qed.

(** C9 (as amended).  For a set [S] of identifiers without line
    boundaries, [save_seen] writes them one per line in sorted order;
    loading the file gives back [S] unless [S = {""}], which comes back
    empty; and load after save is idempotent: saving and loading twice
    gives the same set as once, also starting from any ledger file. *)
Theorem ledger_roundtrip (S : list string) :
  NoDup S -> (forall x, In x S -> line_free x = true) ->
  save_seen S = join nl (StringSort.sort S) /\
  Sorted (fun a b => String.leb a b = true) (StringSort.sort S) /\
  Permutation S (StringSort.sort S) /\
  (S <> [EmptyString] -> load_seen (Some (save_seen S)) = StringSort.sort S) /\
  load_seen (Some (save_seen [EmptyString])) = [] /\
  (forall x, In x (load_seen (Some (save_seen (load_seen (Some (save_seen S)))))) <->
             In x (load_seen (Some (save_seen S)))) /\
  (forall f x,
     In x (load_seen (Some (save_seen (load_seen (Some (save_seen (load_seen f))))))) <->
     In x (load_seen (Some (save_seen (load_seen f))))).
Proof.
  intros Hnd Hlf.
  split; [reflexivity |].
  split; [apply StringSort.Sorted_sort |].
  split; [apply StringSort.Permuted_sort |].
  split; [intros Hne; rewrite load_save by assumption;
          destruct (list_eq_dec string_dec S [EmptyString]); [contradiction | reflexivity] |].
  split; [reflexivity |].
  split; [apply load_save_idem; assumption |].
  intros f. apply load_save_idem; [apply load_seen_NoDup | apply load_seen_line_free].
Qed.

Lemma ledger_roundtrip_witness :
  (NoDup ["2410.00002"; "2410.00001"] /\
   (forall x, In x ["2410.00002"; "2410.00001"] -> line_free x = true)) /\
  (save_seen ["2410.00002"; "2410.00001"] =
     join nl (StringSort.sort ["2410.00002"; "2410.00001"]) /\
   Sorted (fun a b => String.leb a b = true) (StringSort.sort ["2410.00002"; "2410.00001"]) /\
   Permutation ["2410.00002"; "2410.00001"] (StringSort.sort ["2410.00002"; "2410.00001"]) /\
   (["2410.00002"; "2410.00001"] <> [EmptyString] ->
      load_seen (Some (save_seen ["2410.00002"; "2410.00001"])) =
      StringSort.sort ["2410.00002"; "2410.00001"]) /\
   load_seen (Some (save_seen [EmptyString])) = [] /\
   (forall x, In x (load_seen (Some (save_seen (load_seen (Some (save_seen
                 ["2410.00002"; "2410.00001"])))))) <->
              In x (load_seen (Some (save_seen ["2410.00002"; "2410.00001"])))) /\
   (forall f x,
      In x (load_seen (Some (save_seen (load_seen (Some (save_seen (load_seen f))))))) <->
      In x (load_seen (Some (save_seen (load_seen f)))))).
Proof.
  assert (H1 : NoDup ["2410.00002"; "2410.00001"]).
  { constructor; [intros [E | []]; discriminate | constructor; [intros [] | constructor]]. }
  assert (H2 : forall x, In x ["2410.00002"; "2410.00001"] -> line_free x = true).
  { intros x [<- | [<- | []]]; reflexivity. }
  split; [split; [exact H1 | exact H2] | exact (ledger_roundtrip _ H1 H2)].
Defined.

(** C9 fails as stated: the set [{""}] is saved as an empty file, which
    loads as the empty set. *)
Lemma ledger_empty_id_lost :
  save_seen [EmptyString] = EmptyString /\
  In EmptyString [EmptyString] /\
  load_seen (Some (save_seen [EmptyString])) = [].
Proof. split; [reflexivity | split; [left; reflexivity | reflexivity]]. Qed.

(** ** The ledger across runs *)

Lemma process_result_shape (cfg : config) (since : Z) (rows : list row)
      (seen : list string) (res : result) :
  process_result cfg since (rows, seen) res = (rows, seen) \/
  exists bb sc, process_result cfg since (rows, seen) res =
                  (app rows [mk_row res bb sc], res_pid res :: seen) /\
                ~ In (res_pid res) seen.
Proof.
  unfold process_result.
  destruct (res_published res <? since); [left; reflexivity |].
  destruct (existsb (String.eqb (res_pid res)) seen) eqn:Ex; [left; reflexivity |].
  destruct (classify (res_blob res) (BUCKETS cfg)) as [[bb h] sc].
  destruct (h <? MIN_HITS_ANY_BUCKET cfg); [left; reflexivity |].
  right. exists bb, sc. split; [reflexivity |].
  intros H. apply existsb_eqb_In in H. congruence.
Qed.

Lemma collect_shape (cfg : config) (since : Z) (results : list result) :
  forall rows seen, exists new,
    fold_left (process_result cfg since) results (rows, seen) =
      (app rows new, app (rev (map pid new)) seen) /\
    (NoDup seen -> NoDup (app (rev (map pid new)) seen)) /\
    (forall r, In r new -> exists res, In res results /\ pid r = res_pid res) /\
    (forall r, In r new -> ~ In (pid r) seen).
Proof.
  induction results as [|res rest IH]; intros rows seen; cbn [fold_left].
  - exists []. rewrite app_nil_r. split; [reflexivity |].
    split; [tauto | split; intros r []].
  - destruct (process_result_shape cfg since rows seen res) as [E | (bb & sc & E & Hnin)];
      rewrite E.
    + destruct (IH rows seen) as (new & Ef & Hnd & Hfrom & Hfresh).
      exists new. split; [exact Ef | split; [exact Hnd | split; [| exact Hfresh]]].
      intros r Hr. destruct (Hfrom r Hr) as (res' & Hin & Ep).
      exists res'. split; [right; exact Hin | exact Ep].
    + destruct (IH (app rows [mk_row res bb sc]) (res_pid res :: seen))
        as (new & Ef & Hnd & Hfrom & Hfresh).
      exists (mk_row res bb sc :: new). rewrite Ef. split.
      * simpl. rewrite <- !app_assoc. reflexivity.
      * split; [| split].
        -- intros Hs. simpl. rewrite <- app_assoc. simpl. apply Hnd. constructor; assumption.
        -- intros r [<- | Hr]; [exists res; split; [left |]; reflexivity |].
           destruct (Hfrom r Hr) as (res' & Hin & Ep).
           exists res'. split; [right; exact Hin | exact Ep].
        -- intros r [<- | Hr]; [exact Hnin |].
           intros Hs. exact (Hfresh r Hr (or_intror Hs)).
Qed.

Lemma select_incl (cfg : config) (rows picks : list row) :
  select cfg rows = Some picks -> incl picks rows.
Proof.
  unfold select. destruct (ratio_counts (TOTAL_PICKS cfg) (RATIO cfg)) as [[[q1 q2] q3]|];
    [| discriminate].
  intros E. injection E as <-. unfold select_with.
  intros x Hx. apply head_incl in Hx.
  apply in_app_or in Hx as [Hx | Hx]; [| apply in_app_or in Hx as [Hx | Hx]].
  - apply head_incl, filter_In in Hx.
    apply (Permutation_in _ (Permutation_sym (sort_rows_perm rows))). apply Hx.
  - apply head_incl, filter_In in Hx.
    apply (Permutation_in _ (Permutation_sym (sort_rows_perm rows))). apply Hx.
  - apply head_incl, filter_In in Hx.
    apply (Permutation_in _ (Permutation_sym (sort_rows_perm rows))). apply Hx.
Qed.

Lemma run_shape (cfg : config) (now : Z) (ledger : option string) (results : list result) :
  exists new,
    out_rows (run cfg now ledger results) = new /\
    out_ledger (run cfg now ledger results) =
      save_seen (app (rev (map pid new)) (load_seen ledger)) /\
    NoDup (app (rev (map pid new)) (load_seen ledger)) /\
    (forall r, In r new -> exists res, In res results /\ pid r = res_pid res) /\
    (forall r, In r new -> ~ In (pid r) (load_seen ledger)) /\
    (forall picks, out_picks (run cfg now ledger results) = Some picks -> incl picks new).
Proof.
  destruct (collect_shape cfg (now - DAYS_BACK cfg * 86400) results [] (load_seen ledger))
    as (new & Ef & Hnd & Hfrom & Hfresh).
  exists new. unfold run, collect. rewrite Ef. simpl.
  split; [reflexivity | split; [reflexivity | split; [apply Hnd, load_seen_NoDup |]]].
  split; [exact Hfrom | split; [exact Hfresh |]].
  intros picks Hp. destruct new as [|r new]; simpl in Hp.
  - injection Hp as <-. intros x [].
  - exact (select_incl cfg _ _ Hp).
Qed.

(** The seen set at the end of a run has no line boundaries when the
    fetched identifiers have none. *)
Lemma run_seen_line_free (new : list row) (ledger : option string) (results : list result) :
  (forall res, In res results -> line_free (res_pid res) = true) ->
  (forall r, In r new -> exists res, In res results /\ pid r = res_pid res) ->
  forall x, In x (app (rev (map pid new)) (load_seen ledger)) -> line_free x = true.
Proof.
  intros Hlf Hfrom x Hx. apply in_app_or in Hx as [Hx | Hx].
  - apply in_rev, in_map_iff in Hx as (r & <- & Hr).
    destruct (Hfrom r Hr) as (res & Hin & ->). exact (Hlf res Hin).
  - exact (load_seen_line_free ledger x Hx).
Qed.

Lemma persist_in (S : list string) (x : string) :
  NoDup S -> (forall y, In y S -> line_free y = true) ->
  In x S -> x <> EmptyString -> In x (load_seen (Some (save_seen S))).
Proof.
  intros Hnd Hlf Hx Hne. rewrite load_save by assumption.
  destruct (list_eq_dec string_dec S [EmptyString]) as [E | _].
  - rewrite E in Hx. destruct Hx as [<- | []]. contradiction.
  - exact (Permutation_in _ (StringSort.Permuted_sort S) Hx).
Qed.

Lemma persist_sub (S : list string) (x : string) :
  NoDup S -> (forall y, In y S -> line_free y = true) ->
  In x (load_seen (Some (save_seen S))) -> In x S.
Proof.
  intros Hnd Hlf Hx. rewrite load_save in Hx by assumption.
  destruct (list_eq_dec string_dec S [EmptyString]); [destruct Hx |].
  exact (Permutation_in _ (Permutation_sym (StringSort.Permuted_sort S)) Hx).
Qed.

(** Once a non-empty identifier is in the ledger file, no later run
    selects a row with it, and it stays in every later ledger file. *)
Lemma runs_exclude (cfg : config) (x : string) (batches : list (Z * list result)) :
  Forall (fun b => forall res, In res (snd b) -> line_free (res_pid res) = true) batches ->
  x <> EmptyString ->
  forall f, In x (load_seen (Some f)) ->
  forall po, In po (runs cfg (Some f) batches) ->
  forall picks, po = Some picks -> forall p, In p picks -> pid p <> x.
Proof.
  induction batches as [|[now results] rest IH]; intros Hb Hne f Hx po Hpo picks Ep p Hp;
    [destruct Hpo |].
  apply Forall_cons_iff in Hb as [Hb0 Hb]. simpl in Hb0.
  destruct (run_shape cfg now (Some f) results)
    as (new & Erows & Eledger & Hnd & Hfrom & Hfresh & Hpicks).
  simpl in Hpo. destruct Hpo as [Hpo | Hpo].
  - subst po. apply (Hpicks picks Ep) in Hp. intros E. apply (Hfresh p Hp). rewrite E. exact Hx.
  - refine (IH Hb Hne (out_ledger (run cfg now (Some f) results)) _ po Hpo picks Ep p Hp).
    rewrite Eledger. apply persist_in; [exact Hnd | | | exact Hne].
    + exact (run_seen_line_free new (Some f) results Hb0 Hfrom).
    + apply in_or_app. right. exact Hx.
Qed.

(** C10.  Fetched identifiers are taken to be non-empty where stated and
    free of line breaks, as arXiv identifiers are.  Every row of the pool
    of a run (an item that passed the threshold, picked or not) has its id
    in the ledger file written at the end of the run, and no later run
    selects a row with that id.  An id that was not in the ledger and has
    no row in the pool is not in the new ledger file, so it stays eligible;
    in particular a fresh item failing the threshold leaves the loop state,
    and so the seen set, unchanged. *)
Theorem seen_ledger_persists (cfg : config) (now : Z) (ledger : option string)
        (results : list result) (batches : list (Z * list result)) :
  (forall res, In res results -> line_free (res_pid res) = true) ->
  Forall (fun b => forall res, In res (snd b) -> line_free (res_pid res) = true) batches ->
  (forall r, In r (out_rows (run cfg now ledger results)) -> pid r <> EmptyString ->
     In (pid r) (load_seen (Some (out_ledger (run cfg now ledger results)))) /\
     forall po, In po (runs cfg (Some (out_ledger (run cfg now ledger results))) batches) ->
     forall picks, po = Some picks -> forall p, In p picks -> pid p <> pid r) /\
  (forall x, ~ In x (load_seen ledger) ->
     (forall r, In r (out_rows (run cfg now ledger results)) -> pid r <> x) ->
     ~ In x (load_seen (Some (out_ledger (run cfg now ledger results))))) /\
  (forall since rows seen res bb h sc,
     since <= res_published res -> ~ In (res_pid res) seen ->
     classify (res_blob res) (BUCKETS cfg) = (bb, h, sc) ->
     h < MIN_HITS_ANY_BUCKET cfg ->
     process_result cfg since (rows, seen) res = (rows, seen)).
Proof.
  intros Hlf Hb.
  destruct (run_shape cfg now ledger results)
    as (new & Erows & Eledger & Hnd & Hfrom & Hfresh & Hpicks).
  pose proof (run_seen_line_free new ledger results Hlf Hfrom) as Hslf.
  split; [| split].
  - intros r Hr Hne. rewrite Erows in Hr.
    assert (Hin : In (pid r) (load_seen (Some (out_ledger (run cfg now ledger results))))).
    { rewrite Eledger. apply persist_in; [exact Hnd | exact Hslf | | exact Hne].
      apply in_or_app. left. apply in_rev. rewrite rev_involutive. apply in_map. exact Hr. }
    split; [exact Hin |].
    intros po Hpo picks Ep p Hp.
    exact (runs_exclude cfg (pid r) batches Hb Hne _ Hin po Hpo picks Ep p Hp).
  - intros x Hx Hrows Hin. rewrite Eledger in Hin.
    apply persist_sub in Hin; [| exact Hnd | exact Hslf].
    apply in_app_or in Hin as [Hin | Hin]; [| contradiction].
    apply in_rev, in_map_iff in Hin as (r & Ep & Hr).
    rewrite <- Erows in Hr. exact (Hrows r Hr Ep).
  - intros since rows seen res bb h sc Hrec Hseen Hcls Hh. unfold process_result.
    replace (res_published res <? since) with false by (symmetry; apply Z.ltb_ge; lia).
    destruct (existsb (String.eqb (res_pid res)) seen) eqn:Ex;
      [apply existsb_eqb_In in Ex; contradiction |].
    rewrite Hcls.
    replace (h <? MIN_HITS_ANY_BUCKET cfg) with true by (symmetry; apply Z.ltb_lt; lia).
    reflexivity.
Qed.

Lemma seen_ledger_persists_witness :
  ((forall res, In res [sample_result] -> line_free (res_pid res) = true) /\
   Forall (fun b => forall res, In res (snd b) -> line_free (res_pid res) = true)
          [(604900, [sample_result])]) /\
  out_rows (run default_config 604900 None [sample_result]) <> [] /\
  ((forall r, In r (out_rows (run default_config 604900 None [sample_result])) ->
       pid r <> EmptyString ->
     In (pid r) (load_seen (Some (out_ledger (run default_config 604900 None [sample_result])))) /\
     forall po, In po (runs default_config
                          (Some (out_ledger (run default_config 604900 None [sample_result])))
                          [(604900, [sample_result])]) ->
     forall picks, po = Some picks -> forall p, In p picks -> pid p <> pid r) /\
   (forall x, ~ In x (load_seen None) ->
     (forall r, In r (out_rows (run default_config 604900 None [sample_result])) -> pid r <> x) ->
     ~ In x (load_seen (Some (out_ledger (run default_config 604900 None [sample_result]))))) /\
   (forall since rows seen res bb h sc,
     since <= res_published res -> ~ In (res_pid res) seen ->
     classify (res_blob res) (BUCKETS default_config) = (bb, h, sc) ->
     h < MIN_HITS_ANY_BUCKET default_config ->
     process_result default_config since (rows, seen) res = (rows, seen))).
Proof.
  assert (H1 : forall res, In res [sample_result] -> line_free (res_pid res) = true)
    by (intros res [<- | []]; reflexivity).
  assert (H2 : Forall (fun b => forall res, In res (snd b) -> line_free (res_pid res) = true)
                      [(604900, [sample_result])])
    by (constructor; [exact H1 | constructor]).
  split; [split; [exact H1 | exact H2] |].
  split; [vm_compute; discriminate |].
  exact (seen_ledger_persists default_config 604900 None [sample_result]
           [(604900, [sample_result])] H1 H2).
Defined.

(** ** Sample evaluations *)

Example ratio_counts_default : ratio_counts 10 (6, 3, 1) = Some (6, 3, 1).
Proof. reflexivity. Qed.
Example ratio_counts_equal : ratio_counts 10 (1, 1, 1) = Some (3, 3, 4).
Proof. reflexivity. Qed.
Example norm_sample : norm ("  A  Robot" ++ nl ++ " uses ") = "a robot uses".
Proof. reflexivity. Qed.
Example splitlines_sample :
  splitlines ("a" ++ nl ++ nl ++ "b" ++ nl) = ["a"; ""; "b"].
Proof. reflexivity. Qed.
Example before_v_sample : before_v "2401.12345v2" = "2401.12345".
Proof. reflexivity. Qed.

(* ================================================================== *)
(** * Further properties of the code *)

(** ** [ratio_counts] *)

(** The three quotas are non-negative whenever the third ratio component
    is positive and [T*a, T*b < 2^52]: a negative remainder then needs
    [c = 0]. *)
Theorem ratio_counts_nonneg_when_last_pos (T a b c : Z) :
  0 <= T -> 0 <= a -> 0 <= b -> 0 < c -> T * a < 2 ^ 52 -> T * b < 2 ^ 52 ->
  exists x y z, ratio_counts T (a, b, c) = Some (x, y, z) /\
                0 <= x /\ 0 <= y /\ 0 <= z.
Proof.
  intros HT Ha Hb Hc Hta Htb.
  rewrite ratio_counts_exact by (try lia; rewrite Z.abs_eq; nia).
  set (s := a + b + c).
  assert (Hs : 0 < s) by (unfold s; lia).
  destruct (round_div_spec (T * a) s Hs) as [[Hx1 Hx2] _].
  destruct (round_div_spec (T * b) s Hs) as [[Hy1 Hy2] _].
  set (x := round_div (T * a) s) in *. set (y := round_div (T * b) s) in *.
  exists x, y, (T - x - y). split; [reflexivity |].
  assert (Hx : 0 <= x) by nia. assert (Hy : 0 <= y) by nia.
  split; [exact Hx | split; [exact Hy |]].
  destruct (Z.eq_dec T 0) as [-> | HT0].
  - assert (x <= 0) by nia. assert (y <= 0) by nia. lia.
  - assert (Hsum : 2 * s * (x + y) <= 2 * T * (a + b) + 2 * s) by nia.
    assert (HTc : 0 < T * c) by nia.
    assert (x + y <= T) by (unfold s in *; nia). lia.
Qed.

Lemma ratio_counts_nonneg_when_last_pos_witness :
  (0 <= 10 /\ 0 <= 6 /\ 0 <= 3 /\ 0 < 1 /\ 10 * 6 < 2 ^ 52 /\ 10 * 3 < 2 ^ 52) /\
  exists x y z, ratio_counts 10 (6, 3, 1) = Some (x, y, z) /\
                0 <= x /\ 0 <= y /\ 0 <= z.
Proof.
  split; [lia |].
  apply (ratio_counts_nonneg_when_last_pos 10 6 3 1); lia.
Defined.

(** The quotas depend only on the proportions of the ratio: scaling it by
    a positive factor changes nothing, float rounding and exceptions
    included. *)
Theorem ratio_counts_scale (T a b c k : Z) :
  0 < k -> ratio_counts T (k * a, k * b, k * c) = ratio_counts T (a, b, c).
Proof.
  intros Hk. unfold ratio_counts.
  replace (k * a + k * b + k * c) with (k * (a + b + c)) by ring.
  destruct (Z.eq_dec (a + b + c) 0) as [E | Ne].
  - rewrite E, Z.mul_0_r. reflexivity.
  - replace (k * (a + b + c) =? 0) with false by (symmetry; apply Z.eqb_neq; nia).
    replace (a + b + c =? 0) with false by (symmetry; apply Z.eqb_neq; exact Ne).
    replace (T * (k * a)) with (k * (T * a)) by ring.
    replace (T * (k * b)) with (k * (T * b)) by ring.
    rewrite !py_div_round_scale by exact Hk. reflexivity.
Qed.

Lemma ratio_counts_scale_witness :
  0 < 2 /\ ratio_counts 10 (2 * 6, 2 * 3, 2 * 1) = ratio_counts 10 (6, 3, 1).
Proof. split; [lia | apply (ratio_counts_scale 10 6 3 1 2); lia]. Defined.

(** ** [norm] *)

Lemma list_ascii_app (s1 s2 : string) :
  list_ascii_of_string (s1 ++ s2) = app (list_ascii_of_string s1) (list_ascii_of_string s2).
Proof. induction s1 as [|c s1 IH]; simpl; [reflexivity | rewrite IH; reflexivity]. Qed.

Lemma string_of_list_app (l1 l2 : list ascii) :
  string_of_list_ascii (app l1 l2) = string_of_list_ascii l1 ++ string_of_list_ascii l2.
Proof. induction l1 as [|c l1 IH]; simpl; [reflexivity | rewrite IH; reflexivity]. Qed.

Lemma lstrip_suffix (s : string) : exists p, s = p ++ lstrip s.
Proof.
  induction s as [|c r IH]; simpl; [exists EmptyString; reflexivity |].
  destruct (is_space c).
  - destruct IH as [p Ep]. exists (String c p). simpl. rewrite <- Ep. reflexivity.
  - exists EmptyString. reflexivity.
Qed.

Lemma lstrip_start (s : string) : starts_nonspace (lstrip s) = true.
Proof.
  induction s as [|c r IH]; simpl; [reflexivity |].
  destruct (is_space c) eqn:E; [exact IH | simpl; rewrite E; reflexivity].
Qed.

Lemma rstrip_prefix (s : string) : exists w, s = rstrip s ++ w.
Proof.
  unfold rstrip.
  set (x := string_of_list_ascii (rev (list_ascii_of_string s))).
  destruct (lstrip_suffix x) as [p Ep].
  assert (El : rev (list_ascii_of_string s) =
               app (list_ascii_of_string p) (list_ascii_of_string (lstrip x))).
  { rewrite <- list_ascii_app, <- Ep. unfold x.
    rewrite list_ascii_of_string_of_list_ascii. reflexivity. }
  exists (string_of_list_ascii (rev (list_ascii_of_string p))).
  rewrite <- string_of_list_app, <- rev_app_distr, <- El, rev_involutive,
    string_of_list_ascii_of_string. reflexivity.
Qed.

Lemma rstrip_end (s : string) : ends_nonspace (rstrip s) = true.
Proof.
  unfold rstrip, ends_nonspace.
  rewrite list_ascii_of_string_of_list_ascii, rev_involutive.
  pose proof (lstrip_start (string_of_list_ascii (rev (list_ascii_of_string s)))) as H.
  destruct (lstrip (string_of_list_ascii (rev (list_ascii_of_string s)))); exact H.
Qed.

Lemma starts_nonspace_prefix (s w : string) :
  starts_nonspace (s ++ w) = true -> starts_nonspace s = true.
Proof. destruct s; simpl; auto. Qed.

Lemma ws_ok_prefix (b : bool) (s w : string) : ws_ok b (s ++ w) = true -> ws_ok b s = true.
Proof.
  revert b. induction s as [|c r IH]; intros b; simpl; [reflexivity |].
  destruct (is_space c).
  - intros H. apply andb_true_iff in H as [H1 H2]. rewrite H1. exact (IH true H2).
  - exact (IH false).
Qed.

Lemma ws_ok_lstrip (b b' : bool) (s : string) : ws_ok b s = true -> ws_ok b' (lstrip s) = true.
Proof.
  revert b. induction s as [|c r IH]; intros b; simpl; [reflexivity |].
  destruct (is_space c) eqn:E.
  - intros H. apply andb_true_iff in H as [_ H]. exact (IH true H).
  - simpl. rewrite E. exact (fun H => H).
Qed.

Lemma collapse_ws_ok (b : bool) (s : string) : ws_ok b (collapse_ws b s) = true.
Proof.
  revert b. induction s as [|c r IH]; intros b; simpl; [reflexivity |].
  destruct (is_space c) eqn:E; [destruct b |]; simpl.
  - exact (IH true).
  - rewrite (IH true). reflexivity.
  - rewrite E. exact (IH false).
Qed.

Lemma collapse_ws_id (b : bool) (s : string) : ws_ok b s = true -> collapse_ws b s = s.
Proof.
  revert b. induction s as [|c r IH]; intros b; simpl; [reflexivity |].
  destruct (is_space c).
  - intros H. apply andb_true_iff in H as [H H2]. apply andb_true_iff in H as [Hb Hc].
    destruct b; [discriminate |]. apply Ascii.eqb_eq in Hc. subst c.
    rewrite (IH true H2). reflexivity.
  - intros H. rewrite (IH false H). reflexivity.
Qed.

Lemma strip_id (s : string) :
  starts_nonspace s = true -> ends_nonspace s = true -> strip s = s.
Proof.
  intros Hs He. unfold strip.
  assert (El : lstrip s = s).
  { destruct s as [|c r]; [reflexivity |]. simpl in *.
    destruct (is_space c); [discriminate | reflexivity]. }
  rewrite El. unfold rstrip, ends_nonspace in *.
  destruct (rev (list_ascii_of_string s)) as [|c l] eqn:Er.
  - apply (f_equal (@rev ascii)) in Er. rewrite rev_involutive in Er. simpl in Er.
    apply (f_equal string_of_list_ascii) in Er.
    rewrite string_of_list_ascii_of_string in Er. subst s. reflexivity.
  - simpl. destruct (is_space c); [discriminate |].
    change (String c (string_of_list_ascii l)) with (string_of_list_ascii (c :: l)).
    rewrite list_ascii_of_string_of_list_ascii, <- Er, rev_involutive,
      string_of_list_ascii_of_string. reflexivity.
Qed.

Lemma lower_char_idem (c : ascii) : lower_char (lower_char c) = lower_char c.
Proof. destruct c as [[] [] [] [] [] [] [] []]; reflexivity. Qed.

Lemma lower_char_space (c : ascii) : is_space (lower_char c) = is_space c.
Proof. destruct c as [[] [] [] [] [] [] [] []]; reflexivity. Qed.

Lemma lower_char_eqb_space (c : ascii) : Ascii.eqb (lower_char c) " " = Ascii.eqb c " ".
Proof. destruct c as [[] [] [] [] [] [] [] []]; reflexivity. Qed.

Lemma lower_char_not_upper (c : ascii) : is_upper (lower_char c) = false.
Proof. destruct c as [[] [] [] [] [] [] [] []]; reflexivity. Qed.

Lemma lower_idem (s : string) : lower (lower s) = lower s.
Proof. induction s as [|c r IH]; simpl; [reflexivity | rewrite lower_char_idem, IH; reflexivity]. Qed.

Lemma lower_ws_ok (b : bool) (s : string) : ws_ok b (lower s) = ws_ok b s.
Proof.
  revert b. induction s as [|c r IH]; intros b; simpl; [reflexivity |].
  rewrite lower_char_space, lower_char_eqb_space, !IH. reflexivity.
Qed.

Lemma lower_starts (s : string) : starts_nonspace (lower s) = starts_nonspace s.
Proof. destruct s; simpl; [reflexivity | rewrite lower_char_space; reflexivity]. Qed.

Lemma list_ascii_lower (s : string) :
  list_ascii_of_string (lower s) = map lower_char (list_ascii_of_string s).
Proof. induction s as [|c r IH]; simpl; [reflexivity | rewrite IH; reflexivity]. Qed.

Lemma lower_ends (s : string) : ends_nonspace (lower s) = ends_nonspace s.
Proof.
  unfold ends_nonspace. rewrite list_ascii_lower, <- map_rev.
  destruct (rev (list_ascii_of_string s)); simpl; [reflexivity |].
  rewrite lower_char_space. reflexivity.
Qed.

Lemma lower_has_upper (t : string) : has_upper (lower t) = false.
Proof.
  induction t as [|c r IH]; simpl; [reflexivity | rewrite lower_char_not_upper, IH; reflexivity].
Qed.

(** The text [norm] returns: lower case, whitespace collapsed and stripped. *)
Lemma norm_canonical (s : string) :
  ws_ok false (norm s) = true /\ starts_nonspace (norm s) = true /\
  ends_nonspace (norm s) = true /\ lower (norm s) = norm s.
Proof.
  unfold norm, strip.
  set (c := collapse_ws false s).
  destruct (rstrip_prefix (lstrip c)) as [w Ew].
  rewrite lower_ws_ok, lower_starts, lower_ends, lower_idem.
  split; [| split; [| split; [apply rstrip_end | reflexivity]]].
  - apply (ws_ok_prefix false _ w). rewrite <- Ew.
    apply (ws_ok_lstrip false). apply collapse_ws_ok.
  - apply (starts_nonspace_prefix _ w). rewrite <- Ew. apply lstrip_start.
Qed.

Lemma norm_idem (s : string) : norm (norm s) = norm s.
Proof.
  destruct (norm_canonical s) as (Hw & Hs & He & Hl).
  unfold norm at 1. rewrite (collapse_ws_id false _ Hw), (strip_id _ Hs He). exact Hl.
Qed.

(** [norm] returns its text in canonical form: every whitespace character
    is a single space between non-space characters (no two adjacent, none
    leading or trailing), no ASCII upper-case letter is left, and
    normalising again changes nothing. *)
Theorem norm_normal_form (s : string) :
  ws_ok false (norm s) = true /\ starts_nonspace (norm s) = true /\
  ends_nonspace (norm s) = true /\ has_upper (norm s) = false /\
  norm (norm s) = norm s.
Proof.
  destruct (norm_canonical s) as (Hw & Hs & He & Hl).
  split; [exact Hw | split; [exact Hs | split; [exact He | split; [| apply norm_idem]]]].
  rewrite <- Hl. apply lower_has_upper.
Qed.

(** ** [count_hits] *)

Lemma prefix_spec (kw t : string) : prefix kw t = true <-> exists q, t = kw ++ q.
Proof.
  revert t. induction kw as [|a kw IH]; intros t.
  - split; [intros _; exists t; reflexivity | destruct t; reflexivity].
  - destruct t as [|b t]; simpl.
    + split; [discriminate | intros [q Hq]; discriminate].
    + destruct (ascii_dec a b) as [<- | Ne].
      * rewrite IH. split; intros [q Hq]; exists q; [rewrite Hq | injection Hq]; auto.
      * split; [discriminate | intros [q Hq]; injection Hq; intros; congruence].
Qed.

(** [kw in t]: [kw] occurs in [t]. *)
Lemma contains_spec (kw t : string) :
  contains kw t = true <-> exists p q, t = p ++ kw ++ q.
Proof.
  induction t as [|c t IH]; cbn [contains].
  - rewrite orb_false_r, prefix_spec. split.
    + intros [q Hq]. exists EmptyString, q. exact Hq.
    + intros (p & q & Hpq). destruct p; [exists q; exact Hpq | discriminate].
  - rewrite orb_true_iff, prefix_spec, IH. split.
    + intros [[q Hq] | (p & q & Hpq)].
      * exists EmptyString, q. exact Hq.
      * exists (String c p), q. rewrite Hpq. reflexivity.
    + intros (p & q & Hpq). destruct p as [|c' p].
      * left. exists q. exact Hpq.
      * right. injection Hpq as -> Hpq. exists p, q. exact Hpq.
Qed.

Lemma count_hits_fold_len (t : string) (kws : list string) (k : Z) :
  fold_left (fun '(hits, score) kw =>
               if contains kw t then (hits + 1, score + 1) else (hits, score))
            kws (k, k) =
  (k + Z.of_nat (length (filter (fun kw => contains kw t) kws)),
   k + Z.of_nat (length (filter (fun kw => contains kw t) kws))).
Proof.
  revert k. induction kws as [|kw kws IH]; intros k; simpl.
  - rewrite Z.add_0_r. reflexivity.
  - destruct (contains kw t); rewrite IH; simpl; [| reflexivity].
    f_equal; lia.
Qed.

(** [count_hits] returns twice the same number: the number of entries of
    the keyword list that occur as a substring of the normalised text.
    Each entry counts once however often it occurs, and a repeated entry
    counts once per repetition; so [0 <= hits = score <= len(keywords)]. *)
Theorem count_hits_counts_entries (text : string) (kws : list string) :
  count_hits text kws =
    (Z.of_nat (length (filter (fun kw => contains kw (norm text)) kws)),
     Z.of_nat (length (filter (fun kw => contains kw (norm text)) kws))) /\
  (forall kw, contains kw (norm text) = true <->
              exists p q, norm text = p ++ kw ++ q) /\
  (0 <= fst (count_hits text kws) <= Z.of_nat (length kws)).
Proof.
  assert (E : count_hits text kws =
    (Z.of_nat (length (filter (fun kw => contains kw (norm text)) kws)),
     Z.of_nat (length (filter (fun kw => contains kw (norm text)) kws)))).
  { unfold count_hits. rewrite count_hits_fold_len. reflexivity. }
  split; [exact E | split; [intros kw; apply contains_spec |]].
  rewrite E. simpl. pose proof (filter_length_le (fun kw => contains kw (norm text)) kws). lia.
Qed.

Lemma has_upper_app (s1 s2 : string) : has_upper (s1 ++ s2) = has_upper s1 || has_upper s2.
Proof. induction s1 as [|c r IH]; simpl; [reflexivity | rewrite IH, orb_assoc; reflexivity]. Qed.

Lemma contains_norm_upper (kw text : string) :
  has_upper kw = true -> contains kw (norm text) = false.
Proof.
  intros Hu. destruct (contains kw (norm text)) eqn:Ec; [exfalso | reflexivity].
  apply contains_spec in Ec as (p & q & Epq).
  assert (H : has_upper (norm text) = false) by (unfold norm; apply lower_has_upper).
  rewrite Epq, !has_upper_app, Hu, orb_true_r in H. discriminate.
Qed.

(** A keyword with an ASCII upper-case letter never counts: [norm] lowers
    the text first, so [count_hits] gives the same result without it. *)
Theorem count_hits_upper_keyword (text kw : string) (k1 k2 : list string) :
  has_upper kw = true ->
  count_hits text (app k1 (kw :: k2)) = count_hits text (app k1 k2).
Proof.
  intros Hu. unfold count_hits. rewrite !fold_left_app. cbn [fold_left].
  destruct (fold_left _ k1 (0, 0)) as [h sc].
  rewrite (contains_norm_upper kw text Hu). reflexivity.
Qed.

Lemma count_hits_upper_keyword_witness :
  has_upper "SLAM" = true /\
  count_hits "Robot SLAM" (app ["robot"] ("SLAM" :: ["slam"])) =
    count_hits "Robot SLAM" (app ["robot"] ["slam"]).
Proof. split; [reflexivity | apply count_hits_upper_keyword; reflexivity]. Defined.

Lemma count_hits_norm (s : string) (kws : list string) :
  count_hits (norm s) kws = count_hits s kws.
Proof. unfold count_hits. rewrite norm_idem. reflexivity. Qed.

(** The classifier sees its text only through [norm]: classifying the
    normalised text gives the same bucket, hits and score, so case and
    whitespace layout never change a classification. *)
Theorem classify_norm_invariant (s : string) (bs : bucket_table) :
  classify (norm s) bs = classify s bs.
Proof.
  unfold classify. generalize (None : option string, 0, -1) as st.
  induction bs as [|[n kws] rest IH]; intros st; simpl; [reflexivity |].
  rewrite count_hits_norm. destruct (count_hits s kws) as [h sc].
  destruct st as [[bb bh] bsc]. apply IH.
Qed.

(** ** The identifier [pid] (line 118) *)

(** [short_id.split("v")[0]] keeps everything before the first ["v"]: the
    identifier is the short id with its version suffix, from the first
    ["v"] on, removed, and holds no ["v"] itself. *)
Theorem before_v_split (s : string) :
  exists w, s = before_v s ++ w /\
            (w = EmptyString \/ exists r, w = String "v" r) /\
            ~ In "v"%char (list_ascii_of_string (before_v s)).
Proof.
  induction s as [|c r IH]; simpl.
  - exists EmptyString. split; [reflexivity | split; [left; reflexivity | intros []]].
  - destruct (Ascii.eqb c "v") eqn:E.
    + apply Ascii.eqb_eq in E. subst c. exists (String "v" r).
      split; [reflexivity | split; [right; exists r; reflexivity | intros []]].
    + destruct IH as (w & Ew & Hw & Hnv). exists w.
      split; [rewrite Ew at 1; reflexivity | split; [exact Hw |]].
      intros [Hc | Hin]; [subst c; discriminate | exact (Hnv Hin)].
Qed.

(** ** The pool of a run *)

Lemma classify_loop_inv (blob : string) (names : list string) (bs : bucket_table)
      (st : cls_state) :
  incl (map fst bs) names ->
  (st = (None, 0, -1) \/
   exists n, fst (fst st) = Some n /\ In n names /\ snd (fst st) = snd st) ->
  let '(bb, h, sc) := classify_loop blob bs st in
  (bb = None /\ h = 0 /\ sc = -1) \/ (exists n, bb = Some n /\ In n names /\ h = sc).
Proof.
  revert st. induction bs as [|[n kws] rest IH]; intros st Hincl Hst; simpl.
  - destruct st as [[bb h] sc]. destruct Hst as [E | (n & E1 & Hn & E2)].
    + injection E as -> -> ->. left. auto.
    + simpl in *. subst. right. exists n. auto.
  - destruct (count_hits blob kws) as [h sc] eqn:Ec.
    destruct st as [[bb bh] bsc].
    apply IH; [intros x Hx; apply Hincl; right; exact Hx |].
    destruct (sc >? bsc); [| exact Hst].
    right. exists n. simpl. split; [reflexivity | split; [apply Hincl; left; reflexivity |]].
    destruct (count_hits_diag blob kws) as [m [_ Em]]. rewrite Ec in Em.
    injection Em as -> ->. reflexivity.
Qed.

Lemma classify_result (blob : string) (bs : bucket_table) :
  let '(bb, h, sc) := classify blob bs in
  (bb = None /\ h = 0 /\ sc = -1) \/
  (exists n, bb = Some n /\ In n (map fst bs) /\ h = sc).
Proof.
  unfold classify. apply classify_loop_inv; [intros x Hx; exact Hx | left; reflexivity].
Qed.

Lemma process_result_from (cfg : config) (since : Z) (rows : list row)
      (seen : list string) (res : result) :
  process_result cfg since (rows, seen) res = (rows, seen) \/
  exists bb h sc, process_result cfg since (rows, seen) res =
                    (app rows [mk_row res bb sc], res_pid res :: seen) /\
                  since <= res_published res /\
                  classify (res_blob res) (BUCKETS cfg) = (bb, h, sc) /\
                  MIN_HITS_ANY_BUCKET cfg <= h.
Proof.
  unfold process_result.
  destruct (res_published res <? since) eqn:Et; [left; reflexivity |].
  destruct (existsb (String.eqb (res_pid res)) seen); [left; reflexivity |].
  destruct (classify (res_blob res) (BUCKETS cfg)) as [[bb h] sc] eqn:Ec.
  destruct (h <? MIN_HITS_ANY_BUCKET cfg) eqn:Eh; [left; reflexivity |].
  right. exists bb, h, sc. apply Z.ltb_ge in Et, Eh. auto.
Qed.

Lemma collect_from (cfg : config) (since : Z) (results : list result) :
  forall rows seen r,
    In r (fst (fold_left (process_result cfg since) results (rows, seen))) ->
    In r rows \/
    exists res bb h sc, In res results /\ r = mk_row res bb sc /\
                        since <= res_published res /\
                        classify (res_blob res) (BUCKETS cfg) = (bb, h, sc) /\
                        MIN_HITS_ANY_BUCKET cfg <= h.
Proof.
  induction results as [|res rest IH]; intros rows seen r Hr; cbn [fold_left] in Hr;
    [left; exact Hr |].
  destruct (process_result_from cfg since rows seen res)
    as [E | (bb & h & sc & E & Ht & Ec & Hh)]; rewrite E in Hr.
  - destruct (IH rows seen r Hr) as [H | (res' & bb' & h' & sc' & Hin & H)];
      [left; exact H | right; exists res', bb', h', sc'; split; [right; exact Hin | exact H]].
  - destruct (IH _ _ r Hr) as [H | (res' & bb' & h' & sc' & Hin & H)].
    + apply in_app_or in H as [H | [<- | []]]; [left; exact H |].
      right. exists res, bb, h, sc. split; [left; reflexivity | auto].
    + right. exists res', bb', h', sc'. split; [right; exact Hin | exact H].
Qed.

Lemma replace_nl_no_lf (s : string) : ~ In (ascii_of_nat 10) (list_ascii_of_string (replace_nl s)).
Proof.
  induction s as [|c r IH]; simpl; [intros [] |].
  intros [Hc | Hin]; [| exact (IH Hin)].
  destruct (Ascii.eqb c (ascii_of_nat 10)) eqn:E; [discriminate |].
  subst c. rewrite Ascii.eqb_refl in E. discriminate.
Qed.

Lemma strip_sub (s : string) (c : ascii) :
  In c (list_ascii_of_string (strip s)) -> In c (list_ascii_of_string s).
Proof.
  unfold strip. intros H.
  destruct (rstrip_prefix (lstrip s)) as [w Ew].
  destruct (lstrip_suffix s) as [p Ep].
  rewrite Ep, list_ascii_app. apply in_or_app. right.
  rewrite Ew, list_ascii_app. apply in_or_app. left. exact H.
Qed.

(** Every row of the pool comes from a fetched result published at or
    after [now - DAYS_BACK days]; its title has no line feed left; and when
    [MIN_HITS_ANY_BUCKET >= 1] its bucket is one of the configured bucket
    names and its score, the hits of that bucket, reaches the threshold
    (an empty bucket table then gives an empty pool). *)
Theorem run_pool_rows (cfg : config) (now : Z) (ledger : option string)
        (results : list result) :
  forall r, In r (out_rows (run cfg now ledger results)) ->
  exists res, In res results /\ pid r = res_pid res /\
    published r = res_published res /\
    now - DAYS_BACK cfg * 86400 <= published r /\
    ~ In (ascii_of_nat 10) (list_ascii_of_string (title r)) /\
    (1 <= MIN_HITS_ANY_BUCKET cfg ->
       MIN_HITS_ANY_BUCKET cfg <= score r /\
       exists b, bucket r = Some b /\ In b (map fst (BUCKETS cfg))).
Proof.
  intros r Hr. unfold run in Hr.
  destruct (collect cfg (now - DAYS_BACK cfg * 86400) (load_seen ledger) results)
    as [rows seen'] eqn:Ecol.
  simpl in Hr. unfold collect in Ecol.
  pose proof (collect_from cfg (now - DAYS_BACK cfg * 86400) results [] (load_seen ledger) r)
    as Hf.
  rewrite Ecol in Hf. simpl in Hf.
  destruct (Hf Hr) as [[] | (res & bb & h & sc & Hin & -> & Ht & Ec & Hh)].
  exists res. simpl. split; [exact Hin | split; [reflexivity | split; [reflexivity |]]].
  split; [exact Ht | split].
  - intros H. apply strip_sub in H. exact (replace_nl_no_lf _ H).
  - intros Hmin. pose proof (classify_result (res_blob res) (BUCKETS cfg)) as Hc.
    rewrite Ec in Hc. destruct Hc as [(_ & -> & _) | (n & -> & Hn & ->)]; [lia |].
    split; [exact Hh | exists n; split; [reflexivity | exact Hn]].
Qed.

(** ** The shortlist of a run *)

Lemma head_firstn {A} (n : Z) (l : list A) : exists k, head n l = firstn k l.
Proof. unfold head. destruct (0 <=? n); eexists; reflexivity. Qed.

Lemma NoDup_map_firstn {A B} (f : A -> B) (k : nat) (l : list A) :
  NoDup (map f l) -> NoDup (map f (firstn k l)).
Proof.
  intros H. rewrite <- (firstn_skipn k l), map_app in H. exact (NoDup_app_remove_r _ _ H).
Qed.

Lemma NoDup_map_filter {A B} (f : A -> B) (g : A -> bool) (l : list A) :
  NoDup (map f l) -> NoDup (map f (filter g l)).
Proof.
  induction l as [|x l IH]; intros H; simpl; [constructor |].
  inversion H as [|y m Hx Hl]; subst.
  destruct (g x); [simpl; constructor; [| exact (IH Hl)] | exact (IH Hl)].
  intros Hin. apply Hx. apply in_map_iff in Hin as (z & Ez & Hz).
  apply filter_In in Hz as [Hz _]. rewrite <- Ez. apply in_map. exact Hz.
Qed.

Lemma NoDup_map_inj {A B} (f : A -> B) (l : list A) (a b : A) :
  NoDup (map f l) -> In a l -> In b l -> f a = f b -> a = b.
Proof.
  induction l as [|x l IH]; intros H Ha Hb E; [destruct Ha |].
  inversion H as [|y m Hx Hl]; subst.
  destruct Ha as [<- | Ha], Hb as [<- | Hb]; [reflexivity | | | exact (IH Hl Ha Hb E)].
  - exfalso. apply Hx. rewrite E. apply in_map. exact Hb.
  - exfalso. apply Hx. rewrite <- E. apply in_map. exact Ha.
Qed.

Lemma slice_in_rows (p : string) (k : Z) (rows : list row) (x : row) :
  In x (head k (filter (bucket_starts p) (sort_rows rows))) ->
  In x rows /\ bucket_starts p x = true.
Proof.
  intros Hx. apply head_incl, filter_In in Hx as [Hx Hp]. split; [| exact Hp].
  exact (Permutation_in _ (Permutation_sym (sort_rows_perm rows)) Hx).
Qed.

Lemma slice_NoDup (p : string) (k : Z) (rows : list row) :
  NoDup (map pid rows) -> NoDup (map pid (head k (filter (bucket_starts p) (sort_rows rows)))).
Proof.
  intros H. destruct (head_firstn k (filter (bucket_starts p) (sort_rows rows))) as [n ->].
  apply NoDup_map_firstn, NoDup_map_filter.
  exact (Permutation_NoDup (Permutation_map pid (sort_rows_perm rows)) H).
Qed.

Lemma slices_disjoint (p p' : string) (k k' : Z) (rows : list row) :
  NoDup (map pid rows) ->
  (forall r, bucket_starts p r = true -> bucket_starts p' r = false) ->
  forall x, In x (map pid (head k (filter (bucket_starts p) (sort_rows rows)))) ->
  ~ In x (map pid (head k' (filter (bucket_starts p') (sort_rows rows)))).
Proof.
  intros Hnd Hex x Hx Hx'.
  apply in_map_iff in Hx as (a & Ea & Ha), Hx' as (b & Eb & Hb).
  apply slice_in_rows in Ha as [Ha Hpa], Hb as [Hb Hpb].
  assert (a = b) as <- by (apply (NoDup_map_inj pid rows); congruence).
  rewrite (Hex a Hpa) in Hpb. discriminate.
Qed.

Lemma select_with_NoDup (total q1 q2 q3 : Z) (rows : list row) :
  NoDup (map pid rows) -> NoDup (map pid (select_with total q1 q2 q3 rows)).
Proof.
  intros Hnd. unfold select_with.
  destruct (head_firstn total (app (head q1 (filter (bucket_starts "P1") (sort_rows rows)))
             (app (head q2 (filter (bucket_starts "P2") (sort_rows rows)))
                  (head q3 (filter (bucket_starts "P3") (sort_rows rows)))))) as [K ->].
  apply NoDup_map_firstn. rewrite !map_app.
  apply NoDup_app; [apply slice_NoDup, Hnd | apply NoDup_app; [apply slice_NoDup, Hnd .. |] |].
  - apply slices_disjoint; [exact Hnd | exact P2_not_P3].
  - intros x Hx Hx'. apply in_app_or in Hx' as [Hx' | Hx'].
    + exact (slices_disjoint "P1" "P2" q1 q2 rows Hnd P1_not_P2 x Hx Hx').
    + exact (slices_disjoint "P1" "P3" q1 q3 rows Hnd P1_not_P3 x Hx Hx').
Qed.

(** No two rows of a run's pool share an identifier, none of them was in
    the ledger read at the start of the run, and so no two rows of the
    shortlist share an identifier either. *)
Theorem run_ids_distinct (cfg : config) (now : Z) (ledger : option string)
        (results : list result) :
  NoDup (map pid (out_rows (run cfg now ledger results))) /\
  (forall r, In r (out_rows (run cfg now ledger results)) -> ~ In (pid r) (load_seen ledger)) /\
  (forall picks, out_picks (run cfg now ledger results) = Some picks ->
     NoDup (map pid picks) /\ incl picks (out_rows (run cfg now ledger results))).
Proof.
  destruct (run_shape cfg now ledger results)
    as (new & Erows & _ & Hnd & _ & Hfresh & Hpicks).
  assert (Hn : NoDup (map pid new)).
  { apply NoDup_app_remove_r in Hnd. apply NoDup_rev in Hnd.
    rewrite rev_involutive in Hnd. exact Hnd. }
  rewrite Erows. split; [exact Hn | split; [exact Hfresh |]].
  intros picks Hp. split; [| exact (Hpicks picks Hp)].
  unfold run in Hp.
  destruct (collect cfg (now - DAYS_BACK cfg * 86400) (load_seen ledger) results)
    as [rows seen'] eqn:Ecol.
  unfold run in Erows. rewrite Ecol in Erows. simpl in Erows, Hp. subst rows.
  destruct new as [|r0 new'].
  - injection Hp as <-. constructor.
  - unfold select in Hp.
    destruct (ratio_counts (TOTAL_PICKS cfg) (RATIO cfg)) as [[[q1 q2] q3]|]; [| discriminate].
    injection Hp as <-. apply select_with_NoDup, Hn.
Qed.

Lemma filter_head_prefix (f : row -> bool) (K : nat) (L S : list row) (k : nat) :
  filter f L = firstn k S -> exists R, app (filter f (firstn K L)) R = S.
Proof.
  intros E. destruct (filter_firstn_prefix f K L) as [R1 HR1].
  exists (app R1 (skipn k S)). rewrite app_assoc, HR1, E, firstn_skipn. reflexivity.
Qed.

Lemma strongly_sorted_app {A} (R : A -> A -> Prop) (l1 l2 : list A) (a b : A) :
  StronglySorted R (app l1 l2) -> In a l1 -> In b l2 -> R a b.
Proof.
  induction l1 as [|x l1 IH]; intros H Ha Hb; [destruct Ha |].
  apply StronglySorted_inv in H as [H Hall]. destruct Ha as [<- | Ha].
  - rewrite Forall_forall in Hall. apply Hall, in_or_app. right. exact Hb.
  - exact (IH H Ha Hb).
Qed.

Lemma strongly_sorted_filter {A} (R : A -> A -> Prop) (f : A -> bool) (l : list A) :
  StronglySorted R l -> StronglySorted R (filter f l).
Proof.
  induction l as [|x l IH]; intros H; simpl; [constructor |].
  apply StronglySorted_inv in H as [H Hall].
  destruct (f x); [constructor; [exact (IH H) |] | exact (IH H)].
  rewrite Forall_forall in *. intros y Hy. apply filter_In in Hy as [Hy _]. exact (Hall y Hy).
Qed.

Lemma row_before_trans (a b c : row) :
  row_before a b = true -> row_before b c = true -> row_before a c = true.
Proof.
  unfold row_before. rewrite !orb_true_iff, !andb_true_iff, !Z.ltb_lt, !Z.eqb_eq, !Z.leb_le.
  lia.
Qed.

(** The rows of bucket [p] in the shortlist, in order, followed by some
    rest, are the rows of bucket [p] of the sorted pool. *)
Lemma select_with_bucket_prefix (total q1 q2 q3 : Z) (rows : list row) (p : string) :
  In p ["P1"; "P2"; "P3"] ->
  exists R, app (filter (bucket_starts p) (select_with total q1 q2 q3 rows)) R
            = bucket_rows p rows.
Proof.
  intros Hp. unfold select_with.
  fold (bucket_rows "P1" rows) (bucket_rows "P2" rows) (bucket_rows "P3" rows).
  destruct (head_firstn q1 (bucket_rows "P1" rows)) as [k1 ->].
  destruct (head_firstn q2 (bucket_rows "P2" rows)) as [k2 ->].
  destruct (head_firstn q3 (bucket_rows "P3" rows)) as [k3 ->].
  destruct (head_firstn total (app (firstn k1 (bucket_rows "P1" rows))
             (app (firstn k2 (bucket_rows "P2" rows)) (firstn k3 (bucket_rows "P3" rows)))))
    as [K ->].
  destruct Hp as [<- | [<- | [<- | []]]]; eapply filter_head_prefix; rewrite !filter_app.
  - rewrite slice_own, (slice_bucket "P2" k2 rows _ P2_not_P1),
      (slice_bucket "P3" k3 rows _ P3_not_P1), !app_nil_r. reflexivity.
  - rewrite slice_own, (slice_bucket "P1" k1 rows _ P1_not_P2),
      (slice_bucket "P3" k3 rows _ P3_not_P2), app_nil_r. reflexivity.
  - rewrite slice_own, (slice_bucket "P1" k1 rows _ P1_not_P3),
      (slice_bucket "P2" k2 rows _ P2_not_P3). reflexivity.
Qed.

(** Within each bucket the shortlist holds the best rows of the pool: a
    row of bucket [p] left out of the shortlist never ranks before (by
    score, then timestamp, both descending) a row of [p] that is in it. *)
Theorem select_with_bucket_top (total q1 q2 q3 : Z) (rows : list row) (p : string)
        (r r' : row) :
  In p ["P1"; "P2"; "P3"] ->
  In r (select_with total q1 q2 q3 rows) -> bucket_starts p r = true ->
  In r' rows -> bucket_starts p r' = true ->
  ~ In r' (select_with total q1 q2 q3 rows) ->
  row_before r r' = true.
Proof.
  intros Hp Hr Hpr Hr' Hpr' Hout.
  destruct (select_with_bucket_prefix total q1 q2 q3 rows p Hp) as [R ER].
  assert (Hss : StronglySorted (fun a b => row_before a b = true) (bucket_rows p rows)).
  { apply strongly_sorted_filter, Sorted_StronglySorted; [| apply sort_rows_sorted].
    intros a b c. apply row_before_trans. }
  rewrite <- ER in Hss. apply (strongly_sorted_app _ _ _ _ _ Hss).
  - apply filter_In. split; assumption.
  - assert (Hin : In r' (bucket_rows p rows)).
    { apply filter_In. split; [| exact Hpr'].
      exact (Permutation_in _ (sort_rows_perm rows) Hr'). }
    rewrite <- ER in Hin. apply in_app_or in Hin as [Hin | Hin]; [| exact Hin].
    apply filter_In in Hin as [Hin _]. contradiction.
Qed.

Lemma select_with_bucket_top_witness :
  (In "P1" ["P1"; "P2"; "P3"] /\
   In sample_row_hi (select_with 10 1 0 0 [sample_row_lo; sample_row_hi]) /\
   bucket_starts "P1" sample_row_hi = true /\
   In sample_row_lo [sample_row_lo; sample_row_hi] /\
   bucket_starts "P1" sample_row_lo = true /\
   ~ In sample_row_lo (select_with 10 1 0 0 [sample_row_lo; sample_row_hi])) /\
  row_before sample_row_hi sample_row_lo = true.
Proof.
  assert (Hp : In "P1" ["P1"; "P2"; "P3"]) by (left; reflexivity).
  assert (Hsel : select_with 10 1 0 0 [sample_row_lo; sample_row_hi] = [sample_row_hi])
    by (vm_compute; reflexivity).
  assert (Hr : In sample_row_hi (select_with 10 1 0 0 [sample_row_lo; sample_row_hi]))
    by (rewrite Hsel; left; reflexivity).
  assert (Hpr : bucket_starts "P1" sample_row_hi = true) by reflexivity.
  assert (Hr' : In sample_row_lo [sample_row_lo; sample_row_hi]) by (left; reflexivity).
  assert (Hpr' : bucket_starts "P1" sample_row_lo = true) by reflexivity.
  assert (Hout : ~ In sample_row_lo (select_with 10 1 0 0 [sample_row_lo; sample_row_hi]))
    by (rewrite Hsel; intros [E | []]; discriminate).
  split; [auto 7 |].
  exact (select_with_bucket_top 10 1 0 0 [sample_row_lo; sample_row_hi] "P1"
           sample_row_hi sample_row_lo Hp Hr Hpr Hr' Hpr' Hout).
Defined.

(** ** The ledger written by a run *)

(** With fetched identifiers free of line breaks, the ledger file written
    by a run holds exactly the non-empty identifiers of the ledger it read
    plus those of the rows of the pool: identifiers of items that were
    skipped (too old, or under the threshold) are not added. *)
Theorem run_ledger_contents (cfg : config) (now : Z) (ledger : option string)
        (results : list result) (x : string) :
  (forall res, In res results -> line_free (res_pid res) = true) ->
  x <> EmptyString ->
  (In x (load_seen (Some (out_ledger (run cfg now ledger results)))) <->
   In x (load_seen ledger) \/
   exists r, In r (out_rows (run cfg now ledger results)) /\ pid r = x).
Proof.
  intros Hlf Hne.
  destruct (run_shape cfg now ledger results)
    as (new & Erows & Eledger & Hnd & Hfrom & _ & _).
  pose proof (run_seen_line_free new ledger results Hlf Hfrom) as Hslf.
  rewrite Eledger, Erows. split.
  - intros Hin. apply persist_sub in Hin; [| exact Hnd | exact Hslf].
    apply in_app_or in Hin as [Hin | Hin]; [right | left; exact Hin].
    apply in_rev, in_map_iff in Hin as (r & Ep & Hr). exists r. auto.
  - intros Hx. apply persist_in; [exact Hnd | exact Hslf | | exact Hne].
    apply in_or_app. destruct Hx as [Hx | (r & Hr & <-)]; [right; exact Hx | left].
    apply in_rev. rewrite rev_involutive. apply in_map. exact Hr.
Qed.

Lemma run_ledger_contents_witness :
  ((forall res, In res [sample_result] -> line_free (res_pid res) = true) /\
   "2410.00001" <> EmptyString) /\
  (In "2410.00001" (load_seen (Some (out_ledger (run default_config 604900 None [sample_result])))) <->
   In "2410.00001" (load_seen None) \/
   exists r, In r (out_rows (run default_config 604900 None [sample_result])) /\
             pid r = "2410.00001").
Proof.
  assert (H1 : forall res, In res [sample_result] -> line_free (res_pid res) = true)
    by (intros res [<- | []]; reflexivity).
  assert (H2 : "2410.00001" <> EmptyString) by discriminate.
  split; [split; [exact H1 | exact H2] |].
  exact (run_ledger_contents default_config 604900 None [sample_result] "2410.00001" H1 H2).
Defined.

(** When no item reaches the pool, the run still rewrites the ledger (the
    save comes before the early return): the file then holds the ledger it
    read, deduplicated and sorted, and nothing is selected. *)
Theorem run_no_rows (cfg : config) (now : Z) (ledger : option string)
        (results : list result) :
  out_rows (run cfg now ledger results) = [] ->
  out_picks (run cfg now ledger results) = Some [] /\
  out_ledger (run cfg now ledger results) = save_seen (load_seen ledger).
Proof.
  intros H. unfold run in *.
  destruct (collect cfg (now - DAYS_BACK cfg * 86400) (load_seen ledger) results)
    as [rows seen'] eqn:Ecol.
  simpl in *. subst rows. split; [reflexivity |].
  destruct (collect_shape cfg (now - DAYS_BACK cfg * 86400) results [] (load_seen ledger))
    as (new & Ef & _).
  unfold collect in Ecol. rewrite Ecol in Ef. injection Ef as En Es.
  destruct new; [| discriminate]. simpl in Es. subst seen'. reflexivity.
Qed.

Lemma run_no_rows_witness :
  out_rows (run default_config 604900 (Some ("b" ++ nl ++ "a" ++ nl ++ "b")) []) = [] /\
  out_picks (run default_config 604900 (Some ("b" ++ nl ++ "a" ++ nl ++ "b")) []) = Some [] /\
  out_ledger (run default_config 604900 (Some ("b" ++ nl ++ "a" ++ nl ++ "b")) []) =
    save_seen (load_seen (Some ("b" ++ nl ++ "a" ++ nl ++ "b"))).
Proof.
  assert (H : out_rows (run default_config 604900 (Some ("b" ++ nl ++ "a" ++ nl ++ "b")) []) = [])
    by reflexivity.
  split; [exact H | exact (run_no_rows default_config 604900 _ [] H)].
Defined.

(** ** RIS records *)

Lemma split_comma_length (s : string) :
  length (split_comma s) =
    S (length (filter (fun c => Ascii.eqb c ",") (list_ascii_of_string s))).
Proof.
  induction s as [|c r IH]; simpl; [reflexivity |].
  destruct (split_comma r) as [|p ps] eqn:E; [simpl in IH; discriminate |].
  destruct (Ascii.eqb c ","); simpl; [rewrite <- IH; reflexivity | exact IH].
Qed.

(** Every RIS record has the TY, TI, UR and ER lines, a blank line, and
    one AU line per comma-separated piece of the [authors] text, so
    [6 + (number of commas)] lines: at least one AU line, even when the
    authors text is empty. *)
Theorem ris_record_length (r : row) :
  length (ris_record r) =
    (6 + length (filter (fun c => Ascii.eqb c ",") (list_ascii_of_string (authors r))))%nat.
Proof.
  unfold ris_record. rewrite !length_app, length_map, split_comma_length. simpl. lia.
Qed.

Lemma run_pool_rows_witness :
  In (mk_row sample_result (Some "P1_world_model_vla_3d") 2)
     (out_rows (run default_config 604900 None [sample_result])) /\
  exists res, In res [sample_result] /\
    pid (mk_row sample_result (Some "P1_world_model_vla_3d") 2) = res_pid res /\
    published (mk_row sample_result (Some "P1_world_model_vla_3d") 2) = res_published res /\
    604900 - DAYS_BACK default_config * 86400 <=
      published (mk_row sample_result (Some "P1_world_model_vla_3d") 2) /\
    ~ In (ascii_of_nat 10)
        (list_ascii_of_string (title (mk_row sample_result (Some "P1_world_model_vla_3d") 2))) /\
    (1 <= MIN_HITS_ANY_BUCKET default_config ->
       MIN_HITS_ANY_BUCKET default_config <=
         score (mk_row sample_result (Some "P1_world_model_vla_3d") 2) /\
       exists b, bucket (mk_row sample_result (Some "P1_world_model_vla_3d") 2) = Some b /\
                 In b (map fst (BUCKETS default_config))).
Proof.
  assert (H : In (mk_row sample_result (Some "P1_world_model_vla_3d") 2)
                 (out_rows (run default_config 604900 None [sample_result])))
    by (vm_compute; left; reflexivity).
  split; [exact H | exact (run_pool_rows default_config 604900 None [sample_result] _ H)].
Defined.
